(** * EyeCare: the reminder scheduling and delivery service

    A shallow embedding of [backend/notificationService.js] (class
    [NotificationService]) together with the [Reminder] model it reads and
    writes, and the properties of the scheduler table, the retry loop around
    the mail transport, the timer callback and the start-up recovery.

    Conventions of the embedding:
    - a JavaScript [Date] is [option Z]: [None] is the Invalid Date (its
      [getTime()] is NaN), [Some ms] is a valid instant in epoch milliseconds;
    - [this.scheduledJobs], a [Map] from id strings to job objects, is a
      [gmap string nat]; a job object is its allocation number (object
      identity), and node-schedule's set of jobs that are still going to fire
      is the map [timers];
    - the [Reminder] collection is a [gmap string Reminder] keyed by [_id];
    - what the service does to the outside world (mail sends, sleeps, store
      reads and writes, error reports on the console) is appended to the
      list [effects];
    - what the outside world answers (the clock, whether a promise rejects,
      whether node-schedule hands out a job) is an explicit argument;
    - exceptions are explicit: a computation returns [Returned a] or
      [Thrown e], and [try]/[catch]/[finally] are the combinators
      [tryCatch] and [tryFinally];
    - the timer callback is given twice: as one computation ([callback],
      which [dispatch] runs as a whole), and cut at its awaits ([Flight],
      [begin], [advance]), so that other calls can run while it is
      suspended ([Move], [play]); [dispatch_stages] relates the two;
    - a string of a request that is used as an id reaches the store through
      mongoose's ObjectId cast ([IdCast]) and the table as it is. *)

From Equations Require Import Equations.
From stdpp Require Import gmap strings list fin_maps.
From Stdlib Require Import ZArith Lia Ascii String.

Local Open Scope Z_scope.
Local Open Scope string_scope.
Local Open Scope list_scope.

(** ** JavaScript values *)

(** [new Date(x)]: [None] when [x] does not denote an instant. *)
Definition JsDate := option Z.

(** A thrown value, seen through the two observations the handlers make:
    [error.message] (empty when the value is falsy or has no message) and
    [String(error)]. *)
Record JsError := mkJsError { message : string; toString : string }.

(** [error && error.message ? error.message : String(error)] *)
Definition describe (e : JsError) : string :=
  if decide (message e = "") then toString e else message e.

(** ** The Reminder model (models/Reminder.js) *)

Inductive Status := pending | sent | failed.

#[global] Instance Status_eq_dec : EqDecision Status.
Proof. solve_decision. Defined.

Record Reminder := mkReminder {
  _id : string;
  userId : string;
  title : string;
  note : string;
  dateTime : JsDate;
  notificationType : string;
  contactInfo : string;
  status : Status;
  sentAt : option Z;
  error : option string
}.

(** ** The world the service runs in *)

(** A job handed out by [schedule.scheduleJob(date, callback)]: the date it
    fires at and the reminder id its callback closes over. *)
Record Job := mkJob { jobDate : Z; jobReminder : string }.

(** The console calls that report a problem, one constructor per call site. *)
Inductive Report :=
| TransporterNotConfigured (email : string)
| EmailSendingFailed (attempt : nat) (email msg : string)
| FailedToSaveStatus (msg : string)
| ErrorProcessing (id msg : string)
| InvalidDateTime (id : string)
| DateInPast (id : string)
| FailedToScheduleJob (id : string)
| UnexpectedError (msg : string)
| ErrorRestoring (msg : string).

Inductive Event :=
| SendMail (to subject : string)      (* emailTransporter.sendMail(mailOptions) *)
| Sleep (ms : nat)                    (* await sleep(ms) *)
| FindById (id : string)              (* Reminder.findById(id) *)
| Find (now : Z)                      (* Reminder.find({status, dateTime: {$gt: now}}) *)
| Save (doc : Reminder)               (* reminder.save() *)
| Console (r : Report).

Record World := mkWorld {
  emailTransporter : bool;            (* this.emailTransporter is not null *)
  scheduledJobs : gmap string nat;    (* this.scheduledJobs *)
  timers : gmap nat Job;              (* jobs node-schedule will still fire *)
  nextJob : nat;                      (* next job object to be allocated *)
  reminders : gmap string Reminder;   (* the Reminder collection *)
  effects : list Event
}.

Definition setScheduledJobs (f : gmap string nat → gmap string nat) (w : World) : World :=
  mkWorld (emailTransporter w) (f (scheduledJobs w)) (timers w) (nextJob w)
          (reminders w) (effects w).

Definition setTimers (f : gmap nat Job → gmap nat Job) (w : World) : World :=
  mkWorld (emailTransporter w) (scheduledJobs w) (f (timers w)) (nextJob w)
          (reminders w) (effects w).

Definition setReminders (f : gmap string Reminder → gmap string Reminder) (w : World) : World :=
  mkWorld (emailTransporter w) (scheduledJobs w) (timers w) (nextJob w)
          (f (reminders w)) (effects w).

Definition emit (e : Event) (w : World) : World :=
  mkWorld (emailTransporter w) (scheduledJobs w) (timers w) (nextJob w)
          (reminders w) (effects w ++ [e]).

(** ** Computations that may throw *)

Inductive Outcome (A : Type) :=
| Returned (a : A)
| Thrown (e : JsError).
Arguments Returned {A} a.
Arguments Thrown {A} e.

Definition Js (A : Type) : Type := World → Outcome A * World.

Definition ret {A} (a : A) : Js A := λ w, (Returned a, w).

Definition throw {A} (e : JsError) : Js A := λ w, (Thrown e, w).

Definition bind {A B} (m : Js A) (k : A → Js B) : Js B :=
  λ w, match m w with
       | (Returned a, w') => k a w'
       | (Thrown e, w') => (Thrown e, w')
       end.

(** [try { body } catch (e) { handler e }] *)
Definition tryCatch {A} (body : Js A) (handler : JsError → Js A) : Js A :=
  λ w, match body w with
       | (Returned a, w') => (Returned a, w')
       | (Thrown e, w') => handler e w'
       end.

(** [try { body } finally { fin }], for a [fin] that neither returns a value
    of its own nor throws, as the one of the timer callback. *)
Definition tryFinally {A} (body : Js A) (fin : World → World) : Js A :=
  λ w, let '(o, w') := body w in (o, fin w').

(** A statement that only changes the world. *)
Definition exec (f : World → World) : Js unit := λ w, (Returned tt, f w).

(** Awaiting a promise of the outside world: it resolves, or rejects with
    the given value. *)
Definition await (rejects : option JsError) : Js unit :=
  λ w, match rejects with
       | None => (Returned tt, w)
       | Some e => (Thrown e, w)
       end.

Declare Scope js_scope.
Delimit Scope js_scope with js.
Notation "x <- m ;; k" := (bind m (λ x, k))
  (at level 100, m at next level, right associativity) : js_scope.
Notation "m ;; k" := (bind m (λ _, k))
  (at level 100, right associativity) : js_scope.
Local Open Scope js_scope.

(** ** The retry loop around the transport *)

(** The value [sendEmailNotification] resolves to. *)
Inductive SendResult :=
| Success
| Failure (err : string).

Definition maxAttempts : nat := 3.

(** [function sleep(ms)] *)
Definition sleep (ms : nat) : Js unit := exec (emit (Sleep ms)).

(** [await this.emailTransporter.sendMail(mailOptions)]; [rejects] is what
    the transport answers to this call. The message body is not part of the
    model. *)
Definition sendMail (email title : string) (rejects : option JsError) : Js unit :=
  exec (emit (SendMail email ("Reminder: " ++ title)%string)) ;; await rejects.

(** The [while (attempt < maxAttempts)] loop of [sendEmailNotification];
    [transport k] is the answer of the transport to the [k]-th [sendMail].
    Falling out of the loop resolves to [undefined], here [None]. *)
Equations? sendLoop (transport : nat → option JsError) (email title : string)
    (attempt : nat) : Js (option SendResult) by wf (maxAttempts - attempt)%nat lt :=
  sendLoop transport email title attempt with decide (attempt < maxAttempts)%nat := {
    | left _ =>
        let attempt' := (attempt + 1)%nat in
        tryCatch
          (sendMail email title (transport attempt') ;;
           ret (Some Success))
          (λ error,
             let msg := describe error in
             exec (emit (Console (EmailSendingFailed attempt' email msg))) ;;
             if decide (attempt' < maxAttempts)%nat then
               let backoff := (attempt' * 700)%nat in
               sleep backoff ;;
               sendLoop transport email title attempt'
             else
               ret (Some (Failure msg)))
    | right _ => ret None
  }.
Proof. lia. Qed.

(** [async sendEmailNotification(email, title, note, dateTime)] *)
Definition sendEmailNotification (transport : nat → option JsError)
    (email title : string) : Js (option SendResult) :=
  λ w,
    if negb (emailTransporter w) then
      (exec (emit (Console (TransporterNotConfigured email))) ;;
       ret (Some (Failure "Transporter not configured"))) w
    else
      sendLoop transport email title 0%nat w.

(** ** Dispatch: what the timer callback does *)

(** What the outside world answers during one run of a timer callback. *)
Record Answers := mkAnswers {
  clock : Z;                          (* new Date() *)
  findByIdRejects : option JsError;   (* Reminder.findById *)
  transport : nat → option JsError;   (* the k-th sendMail *)
  saveRejects : option JsError        (* reminder.save() *)
}.

(** [await Reminder.findById(id)] *)
Definition findById (id : string) (rejects : option JsError) : Js (option Reminder) :=
  exec (emit (FindById id)) ;;
  await rejects ;;
  λ w, (Returned (reminders w !! id), w).

(** [await reminder.save()]: the document replaces the stored record of its
    id when the write goes through. *)
Definition save (doc : Reminder) (rejects : option JsError) : Js unit :=
  exec (emit (Save doc)) ;;
  await rejects ;;
  exec (setReminders <[_id doc := doc]>).

(** [result && result.success] *)
Definition succeeded (result : option SendResult) : bool :=
  match result with
  | Some Success => true
  | _ => false
  end.

(** [result?.error || "Unknown error"] *)
Definition errorOf (result : option SendResult) : string :=
  match result with
  | Some (Failure err) => if decide (err = "") then "Unknown error" else err
  | _ => "Unknown error"
  end.

(** The assignments of the success branch. *)
Definition markSent (now : Z) (r : Reminder) : Reminder :=
  mkReminder (_id r) (userId r) (title r) (note r) (dateTime r)
             (notificationType r) (contactInfo r) sent (Some now) None.

(** The assignments of the failure branch. *)
Definition markFailed (err : string) (r : Reminder) : Reminder :=
  mkReminder (_id r) (userId r) (title r) (note r) (dateTime r)
             (notificationType r) (contactInfo r) failed (sentAt r) (Some err).

(** The first statement of [_processReminder]: the value of [result], which
    stays [undefined] for a type that is neither email nor sms. *)
Definition deliver (env : Answers) (reminder : Reminder) : Js (option SendResult) :=
  if decide (notificationType reminder = "email") then
    sendEmailNotification (transport env) (contactInfo reminder) (title reminder)
  else if decide (notificationType reminder = "sms") then
    ret (Some (Failure "SMS not implemented"))
  else
    ret None.

(** [async _processReminder(reminder)] *)
Definition _processReminder (env : Answers) (reminder : Reminder) : Js unit :=
  result <- deliver env reminder ;;
  let reminder' :=
    if succeeded result then markSent (clock env) reminder
    else markFailed (errorOf result) reminder in
  tryCatch
    (save reminder' (saveRejects env))
    (λ err, exec (emit (Console (FailedToSaveStatus (describe err))))).

(** The callback given to [schedule.scheduleJob] by [scheduleReminder], for
    the reminder id it closes over. *)
Definition callback (id : string) (env : Answers) : Js unit :=
  tryFinally
    (tryCatch
       (existingReminder <- findById id (findByIdRejects env) ;;
        match existingReminder with
        | Some existing =>
            if decide (status existing = pending) then
              _processReminder env existing
            else ret tt
        | None => ret tt
        end)
       (λ err, exec (emit (Console (ErrorProcessing id (describe err))))))
    (setScheduledJobs (delete id)).

(** Job [j] reaches its date: node-schedule takes it out of its pending
    jobs and runs its callback. A job that was cancelled never fires. *)
Definition fire (j : nat) (w : World) : option (string * World) :=
  match timers w !! j with
  | Some job => Some (jobReminder job, setTimers (delete j) w)
  | None => None
  end.

(** A whole dispatch: the job fires and its callback runs to the end of its
    [finally] block. *)
Definition dispatch (j : nat) (env : Answers) (w : World) : Outcome unit * World :=
  match fire j w with
  | Some (id, w') => callback id env w'
  | None => (Returned tt, w)
  end.

(** ** Scheduling and cancelling *)

(** [job.cancel()]: the job leaves the pending ones; cancelling a job that
    has fired or was cancelled changes nothing. The code wraps the call in a
    [try] with an empty [catch]; here the call does not throw. *)
Definition cancelJob (j : nat) : World → World := setTimers (delete j).

(** What [schedule.scheduleJob(date, callback)] answers: a job, [null], or
    an exception. *)
Inductive JobAnswer :=
| JobCreated
| JobNull
| JobThrows (e : JsError).

(** [schedule.scheduleJob(reminderDate, callback)] *)
Definition scheduleJob (date : Z) (id : string) (answer : JobAnswer) : Js (option nat) :=
  λ w, match answer with
       | JobCreated =>
           let j := nextJob w in
           (Returned (Some j),
            mkWorld (emailTransporter w) (scheduledJobs w)
                    (<[j := mkJob date id]> (timers w)) (S j)
                    (reminders w) (effects w))
       | JobNull => (Returned None, w)
       | JobThrows e => (Thrown e, w)
       end.

(** The block under [// Cancel existing job if present]. *)
Definition cancelExisting (reminderIdStr : string) (w : World) : World :=
  match scheduledJobs w !! reminderIdStr with
  | Some existing =>
      setScheduledJobs (delete reminderIdStr) (cancelJob existing w)
  | None => w
  end.

(** [scheduleReminder(reminder)]; [now] is what [new Date()] reads. *)
Definition scheduleReminder (reminder : Reminder) (now : Z) (answer : JobAnswer) : Js bool :=
  tryCatch
    (let reminderIdStr := _id reminder in
     exec (cancelExisting reminderIdStr) ;;
     match dateTime reminder with
     | None =>
         exec (emit (Console (InvalidDateTime reminderIdStr))) ;;
         ret false
     | Some reminderDate =>
         if decide (reminderDate ≤ now)%Z then
           exec (emit (Console (DateInPast reminderIdStr))) ;;
           ret false
         else
           job <- scheduleJob reminderDate reminderIdStr answer ;;
           match job with
           | None =>
               exec (emit (Console (FailedToScheduleJob reminderIdStr))) ;;
               ret false
           | Some j =>
               exec (setScheduledJobs <[reminderIdStr := j]>) ;;
               ret true
           end
     end)
    (λ err,
       exec (emit (Console (UnexpectedError (describe err)))) ;;
       ret false).

(** [cancelScheduledReminder(reminderId)] *)
Definition cancelScheduledReminder (reminderId : string) : Js bool :=
  λ w, match scheduledJobs w !! reminderId with
       | Some job =>
           (Returned true,
            setScheduledJobs (delete reminderId) (cancelJob job w))
       | None => (Returned false, w)
       end.

(** [cancelAllScheduled()] *)
Definition cancelAllScheduled : Js unit :=
  λ w,
    let w' := foldr (λ entry, cancelJob entry.2) w (map_to_list (scheduledJobs w)) in
    (Returned tt, setScheduledJobs (λ _, ∅) w').

(** ** Recovery *)

(** The filter of [Reminder.find({status: "pending", dateTime: {$gt: now}})]. *)
Definition pendingAfter (now : Z) (r : Reminder) : bool :=
  bool_decide (status r = pending) &&
  match dateTime r with
  | Some d => bool_decide (now < d)%Z
  | None => false
  end.

(** What the outside world answers during [restorePendingReminders]: the
    clock and the outcome of the query, and for the [scheduleReminder] call
    of each document the clock and node-schedule's answer then. *)
Record RestoreAnswers := mkRestoreAnswers {
  queryClock : Z;
  findRejects : option JsError;
  clockAt : string → Z;
  jobAt : string → JobAnswer
}.

(** The documents [Reminder.find({...})] returns, in the order the store
    lists them. *)
Definition found (now : Z) (store : gmap string Reminder) : list Reminder :=
  filter (λ r, pendingAfter now r = true) (map_to_list store).*2.

(** [await Reminder.find({status: "pending", dateTime: {$gt: now}})] *)
Definition find (now : Z) (rejects : option JsError) : Js (list Reminder) :=
  exec (emit (Find now)) ;;
  await rejects ;;
  λ w, (Returned (found now (reminders w)), w).

(** [for (const x of l) { f x }] *)
Fixpoint forOf {A} (l : list A) (f : A → Js unit) : Js unit :=
  match l with
  | [] => ret tt
  | x :: l' => f x ;; forOf l' f
  end.

(** The body of the loop of [restorePendingReminders]: the value of
    [this.scheduleReminder(reminder)] is dropped. *)
Definition restoreOne (env : RestoreAnswers) (reminder : Reminder) : Js unit :=
  _ <- scheduleReminder reminder (clockAt env (_id reminder))
                        (jobAt env (_id reminder)) ;;
  ret tt.

(** [async restorePendingReminders()] *)
Definition restorePendingReminders (env : RestoreAnswers) : Js unit :=
  tryCatch
    (pendingReminders <- find (queryClock env) (findRejects env) ;;
     forOf pendingReminders (restoreOne env))
    (λ error, exec (emit (Console (ErrorRestoring (describe error))))).

(** ** The constructor *)

(** [/\s/] on ASCII characters: space, tab, line feed, vertical tab, form
    feed and carriage return. *)
Definition isSpace (c : ascii) : bool :=
  bool_decide (c ∈ [" "; "009"; "010"; "011"; "012"; "013"]%char).

(** [rawEmailPass.replace(/\s+/g, "").trim()] *)
Fixpoint removeSpaces (s : string) : string :=
  match s with
  | EmptyString => EmptyString
  | String c s' => if isSpace c then removeSpaces s' else String c (removeSpaces s')
  end.

(** [constructor()], reading [EMAIL_USER] and [EMAIL_PASSWORD] from the
    environment ([None] when the variable is not set), over the collection
    the database holds. The [verify()] call on a configured transporter only
    logs and is not part of the model. *)
Definition constructor (EMAIL_USER EMAIL_PASSWORD : option string)
    (store : gmap string Reminder) : World :=
  let emailUser := default "" EMAIL_USER in
  let rawEmailPass := default "" EMAIL_PASSWORD in
  let emailPass := removeSpaces rawEmailPass in
  let configured :=
    negb (bool_decide (emailUser = "") || bool_decide (emailPass = "")) in
  mkWorld configured ∅ ∅ 0%nat store [].

(** ** The service as a transition system *)

(** The operations of the service. A [Dispatch] is one whole run of a timer
    callback, from the firing of the job to the end of its [finally] block,
    with nothing running in between; [Move] below takes a callback apart at
    its awaits. *)
Inductive Op :=
| Schedule (reminder : Reminder) (now : Z) (answer : JobAnswer)
| Cancel (reminderId : string)
| CancelAll
| Dispatch (j : nat) (env : Answers)
| Restore (env : RestoreAnswers).

Definition step (op : Op) (w : World) : World :=
  match op with
  | Schedule reminder now answer => (scheduleReminder reminder now answer w).2
  | Cancel reminderId => (cancelScheduledReminder reminderId w).2
  | CancelAll => (cancelAllScheduled w).2
  | Dispatch j env => (dispatch j env w).2
  | Restore env => (restorePendingReminders env w).2
  end.

(** Between two operations of the service the API layer may create and
    delete records: [Api store] leaves the collection as [store]. *)
Inductive Action :=
| Core (op : Op)
| Api (store : gmap string Reminder).

Definition act (w : World) (a : Action) : World :=
  match a with
  | Core op => step op w
  | Api store => setReminders (λ _, store) w
  end.

Definition run (acts : list Action) (w : World) : World := foldl act w acts.

(** ** Observing a world *)

(** The jobs of reminder [id] that node-schedule will still fire. *)
Definition liveJobs (id : string) (w : World) : list nat :=
  (map_to_list (filter (λ entry, jobReminder entry.2 = id) (timers w))).*1.

(** The table and the pending jobs agree: an entry of the table is a pending
    job of that reminder, a pending job is the entry of its reminder, and
    pending jobs are allocated ones. *)
Record Consistent (w : World) : Prop := mkConsistent {
  table_live : ∀ id j, scheduledJobs w !! id = Some j →
                       ∃ d, timers w !! j = Some (mkJob d id);
  live_table : ∀ j job, timers w !! j = Some job →
                        scheduledJobs w !! jobReminder job = Some j;
  live_allocated : ∀ j, is_Some (timers w !! j) → (j < nextJob w)%nat
}.

(** [w'] has the service object and node-schedule as they are in [w]. *)
Definition sameScheduler (w w' : World) : Prop :=
  emailTransporter w' = emailTransporter w ∧
  scheduledJobs w' = scheduledJobs w ∧
  timers w' = timers w ∧
  nextJob w' = nextJob w.

(** Every document of the collection is stored under its own [_id]. *)
Definition wellKeyed (store : gmap string Reminder) : Prop :=
  map_Forall (λ id r, _id r = id) store.

(** The events added between [w] and a later world [w']. *)
Definition since (w w' : World) : list Event :=
  drop (List.length (effects w)) (effects w').

(** The traffic with the mail transport and the timer: sends and sleeps,
    without the console. *)
Fixpoint wire (es : list Event) : list Event :=
  match es with
  | [] => []
  | SendMail to subject :: es' => SendMail to subject :: wire es'
  | Sleep ms :: es' => Sleep ms :: wire es'
  | _ :: es' => wire es'
  end.

(** The documents whose [save()] was called. *)
Fixpoint saves (es : list Event) : list Reminder :=
  match es with
  | [] => []
  | Save doc :: es' => doc :: saves es'
  | _ :: es' => saves es'
  end.

(** Several events at once. *)
Definition emits (es : list Event) (w : World) : World :=
  mkWorld (emailTransporter w) (scheduledJobs w) (timers w) (nextJob w)
          (reminders w) (effects w ++ es).

(** ** Derived descriptions of the code paths *)

(** The call is accepted: a valid date strictly after the clock, and
    node-schedule hands out a job. *)
Definition accepted (reminder : Reminder) (now : Z) (answer : JobAnswer) : bool :=
  match dateTime reminder, answer with
  | Some d, JobCreated => bool_decide (now < d)%Z
  | _, _ => false
  end.

(** The document [_processReminder] saves, given the result of delivery. *)
Definition settled (env : Answers) (result : option SendResult) (r : Reminder) : Reminder :=
  if succeeded result then markSent (clock env) r
  else markFailed (errorOf result) r.

(** What the body of the callback leaves before the [finally] block. *)
Definition afterBody (id : string) (env : Answers) (w : World) : World :=
  match findByIdRejects env with
  | Some e => emits [FindById id; Console (ErrorProcessing id (describe e))] w
  | None =>
      match reminders w !! id with
      | Some existing =>
          if decide (status existing = pending) then
            (_processReminder env existing (emits [FindById id] w)).2
          else emits [FindById id] w
      | None => emits [FindById id] w
      end
  end.

(** ** Sample data *)

Definition sample (id : string) (date : JsDate) (st : Status) : Reminder :=
  mkReminder id "u1" "Eye drops" "Twice a day" date "email" "a@b.com" st None None.

(** A service whose transporter is configured, over the given collection. *)
Definition startup (store : gmap string Reminder) : World :=
  constructor (Some "clinic@example.com") (Some "abcd efgh ijkl mnop") store.

(** The store, the transport and the save all answer. *)
Definition resolves : Answers := mkAnswers 5000 None (λ _, None) None.

Definition refused : JsError := mkJsError "ECONNREFUSED" "Error: ECONNREFUSED".

Definition alwaysFails : nat → option JsError := λ _, Some refused.

(** The store of a restart: A is pending and due later, B is pending and
    overdue, C is due later but already sent. *)
Definition restartStore : gmap string Reminder :=
  {[ "A" := sample "A" (Some 9000) pending;
     "B" := sample "B" (Some 100) pending;
     "C" := sample "C" (Some 9000) sent ]}.

Definition restartAnswers : RestoreAnswers :=
  mkRestoreAnswers 1000 None (λ _, 1001) (λ _, JobCreated).

(** A service holding one pending job, for reminder r1 due at 5000. *)
Definition oneScheduled : World :=
  run [Core (Schedule (sample "r1" (Some 5000) pending) 1000 JobCreated)]
      (startup {[ "r1" := sample "r1" (Some 5000) pending ]}).

(** ** Comparing two worlds *)


(** ** The reminder routes (routes/reminders.js)

    The handlers run behind the [auth] middleware, which leaves the id of
    the authenticated user in [req.user.id]; here it is the argument
    [user]. The console output of the routes is not part of the model, and
    the reads and deletes of the routes are not listed in [effects]. *)

(** The JSON bodies the routes answer with. *)
Inductive Payload :=
| ValidationErrors (errors : list string) (* { success: false, errors: errors.array() } *)
| ErrorMessage (error : string)           (* { error } and { success: false, error } *)
| Created (reminder : Reminder)           (* { success: true, reminder } *)
| Message (message : string).             (* { message } *)

Record Response := mkResponse { statusCode : nat; payload : Payload }.

(** The body of a POST request. *)
Record ReminderBody := mkReminderBody {
  bodyTitle : string;
  bodyNote : string;
  bodyDateTime : string;
  bodyNotificationType : string;
  bodyContactInfo : string
}.

(** What the libraries answer on the date string of a request:
    express-validator's [isISO8601()] and [new Date(dateTime)]. *)
Record DateLibrary := mkDateLibrary {
  isISO8601 : string → bool;
  parseDate : string → JsDate
}.

(** express-validator's [trim()] on ASCII white space: leading and trailing
    white space is removed. *)
Fixpoint ltrim (s : string) : string :=
  match s with
  | EmptyString => EmptyString
  | String c s' => if isSpace c then ltrim s' else s
  end.

Fixpoint rtrim (s : string) : string :=
  match s with
  | EmptyString => EmptyString
  | String c s' =>
      match rtrim s' with
      | EmptyString => if isSpace c then EmptyString else String c EmptyString
      | rest => String c rest
      end
  end.

Definition trim (s : string) : string := rtrim (ltrim s).

(** The request after the sanitizers of the validation chains: title, note
    and contact are trimmed. *)
Definition sanitized (body : ReminderBody) : ReminderBody :=
  mkReminderBody (trim (bodyTitle body)) (trim (bodyNote body)) (bodyDateTime body)
                 (bodyNotificationType body) (trim (bodyContactInfo body)).

(** [validationResult(req).array()], by the message of each failed chain, in
    the order of the chains. *)
Definition validationErrors (lib : DateLibrary) (body : ReminderBody) : list string :=
  (if decide (trim (bodyTitle body) = "") then ["Title is required"] else []) ++
  (if decide (trim (bodyNote body) = "") then ["Note is required"] else []) ++
  (if isISO8601 lib (bodyDateTime body) then [] else ["Valid date and time required"]) ++
  (if decide (bodyNotificationType body = "email" ∨ bodyNotificationType body = "sms")
   then [] else ["Notification type must be email or sms"]) ++
  (if decide (trim (bodyContactInfo body) = "") then ["Contact info is required"] else []).

(** [reminderDate <= now] on Date objects: false for the Invalid Date. *)
Definition notAfter (date : JsDate) (now : Z) : bool :=
  match date with
  | Some d => bool_decide (d ≤ now)%Z
  | None => false
  end.

(** What the outside world answers during a POST: the clock of the route,
    the [_id] mongoose gives the new document, the outcome of its save and
    of the import of the service, and for the [scheduleReminder] call the
    clock and node-schedule's answer then. *)
Record CreateAnswers := mkCreateAnswers {
  createClock : Z;
  newId : string;
  createSaveRejects : option JsError;
  createImportRejects : option JsError;
  scheduleClock : Z;
  jobAnswer : JobAnswer
}.

(** [new Reminder({ userId, title, note, dateTime, notificationType,
    contactInfo })]: the status defaults to pending. *)
Definition newReminder (user : string) (body : ReminderBody) (date : JsDate)
    (id : string) : Reminder :=
  mkReminder id user (bodyTitle body) (bodyNote body) date
             (bodyNotificationType body) (bodyContactInfo body) pending None None.

(** [router.post('/', ...)] *)
Definition createReminder (lib : DateLibrary) (user : string) (body : ReminderBody)
    (env : CreateAnswers) : Js Response :=
  tryCatch
    (let errors := validationErrors lib body in
     if negb (bool_decide (errors = [])) then
       ret (mkResponse 400 (ValidationErrors errors))
     else
       let body' := sanitized body in
       let reminderDate := parseDate lib (bodyDateTime body') in
       let now := createClock env in
       if notAfter reminderDate now then
         ret (mkResponse 400 (ErrorMessage "Reminder date must be in the future"))
       else
         let reminder := newReminder user body' reminderDate (newId env) in
         save reminder (createSaveRejects env) ;;
         await (createImportRejects env) ;;
         _ <- scheduleReminder reminder (scheduleClock env) (jobAnswer env) ;;
         ret (mkResponse 201 (Created reminder)))
    (λ error, ret (mkResponse 500 (ErrorMessage "Failed to create reminder"))).

(** What the outside world answers during a DELETE. *)
Record DeleteAnswers := mkDeleteAnswers {
  findOneRejects : option JsError;
  deleteImportRejects : option JsError;
  deleteOneRejects : option JsError
}.

(** How mongoose casts a string of the request to an ObjectId, in a query
    on [_id] or [userId] and in [new mongoose.Types.ObjectId(s)]: the string
    the id prints as ([_id.toString()], which the store is keyed by), or
    [None] for a string that denotes no id. Several request strings denote
    one id: the hex digits are read in either case. *)
Definition IdCast := string → option string.

Definition castError : JsError :=
  mkJsError "Cast to ObjectId failed" "CastError: Cast to ObjectId failed".

(** The cast of [id] in a query: the key, or the CastError. *)
Definition castId (cast : IdCast) (id : string) : Js string :=
  λ w, match cast id with
       | Some key => (Returned key, w)
       | None => (Thrown castError, w)
       end.

(** [await Reminder.findOne({ _id: id, userId: user })]; [user] is
    [req.user.id], which is in printed form already. *)
Definition findOne (cast : IdCast) (id user : string) (rejects : option JsError)
  : Js (option Reminder) :=
  key <- castId cast id ;;
  await rejects ;;
  λ w, (Returned (match reminders w !! key with
                  | Some r => if decide (userId r = user) then Some r else None
                  | None => None
                  end), w).

(** [await Reminder.deleteOne({ _id: id })] *)
Definition deleteOne (cast : IdCast) (id : string) (rejects : option JsError) : Js unit :=
  key <- castId cast id ;;
  await rejects ;;
  exec (setReminders (delete key)).

(** [router.delete('/:id', ...)]; [id] is [req.params.id]. The two queries
    cast it, the call of the service passes it as it came. *)
Definition deleteReminder (cast : IdCast) (user id : string) (env : DeleteAnswers)
  : Js Response :=
  tryCatch
    (reminder <- findOne cast id user (findOneRejects env) ;;
     match reminder with
     | None => ret (mkResponse 404 (ErrorMessage "Reminder not found"))
     | Some _ =>
         await (deleteImportRejects env) ;;
         _ <- cancelScheduledReminder id ;;
         deleteOne cast id (deleteOneRejects env) ;;
         ret (mkResponse 200 (Message "Reminder deleted successfully"))
     end)
    (λ error, ret (mkResponse 500 (ErrorMessage "Failed to delete reminder"))).

(** ** Start and shutdown (server.js) *)

Inductive Process :=
| Listening              (* app.listen(PORT) *)
| Exited (code : nat).   (* process.exit(code) *)

(** What the outside world answers during the start: the outcome of
    [connectDB()], which also throws when [MONGODB_URI] is not set, and the
    answers to the recovery. *)
Record StartAnswers := mkStartAnswers {
  connectRejects : option JsError;
  recovery : RestoreAnswers
}.

(** [startServer()]: the recovery runs once the database is connected, in a
    [try] of its own; a failed connection ends the process. *)
Definition startServer (env : StartAnswers) : Js Process :=
  tryCatch
    (await (connectRejects env) ;;
     tryCatch (restorePendingReminders (recovery env)) (λ err, ret tt) ;;
     ret Listening)
    (λ err, ret (Exited 1)).

(** [gracefulShutdown(signal)]: the jobs are cancelled, the database is
    disconnected (each in a [try] of its own) and the process exits. *)
Definition gracefulShutdown : Js Process :=
  tryCatch (cancelAllScheduled ;; ret tt) (λ e, ret tt) ;;
  ret (Exited 0).

(** ** Deleting a user (routes/admin.js) *)

(** What the outside world answers during the DELETE of a user: the outcome
    of [User.findByIdAndDelete] and whether it found the user, and the
    outcomes of the two [deleteMany] calls. *)
Record UserDeleteAnswers := mkUserDeleteAnswers {
  findUserRejects : option JsError;
  userFound : bool;
  deleteReportsRejects : option JsError;
  deleteRemindersRejects : option JsError
}.

(** [await Reminder.deleteMany({ userId: key })], [key] an ObjectId. *)
Definition deleteMany (key : string) (rejects : option JsError) : Js unit :=
  await rejects ;;
  exec (setReminders (filter (λ entry, userId entry.2 ≠ key))).

(** [router.delete("/users/:userId", auth, isAdmin, ...)]; [user] is
    [req.params.userId] and [admin] is [req.user._id.toString()]. The test
    for the caller's own account compares the two strings; the queries and
    [new mongoose.Types.ObjectId(userId)] cast the request string. The user
    and report collections are the outside world. *)
Definition deleteUser (cast : IdCast) (admin user : string) (env : UserDeleteAnswers)
  : Js Response :=
  tryCatch
    (if decide (user = admin) then
       ret (mkResponse 400 (ErrorMessage "Cannot delete your own account"))
     else
       key <- castId cast user ;;
       await (findUserRejects env) ;;
       if negb (userFound env) then
         ret (mkResponse 404 (ErrorMessage "User not found"))
       else
         await (deleteReportsRejects env) ;;
         deleteMany key (deleteRemindersRejects env) ;;
         ret (mkResponse 200 (Message "User deleted successfully")))
    (λ error, ret (mkResponse 500 (ErrorMessage "Server error"))).

(** ** The authentication middleware (middleware/auth.js) *)

(** A user document, as far as the middleware looks at it. *)
Record User := mkUser { userKey : string; role : string }.

(** The payload of a verified token: the four fields the middleware reads,
    empty when absent. *)
Record Decoded := mkDecoded {
  decoded_id : string;
  decodedSub : string;
  decodedUserId : string;
  decodedId : string
}.

(** What [jwt.verify] and [User.findById] answer: a value, or an exception
    given by its [name]. *)
Record AuthAnswers := mkAuthAnswers {
  verify : string → Decoded + string;
  findUser : string → option User + string
}.

(** What a middleware does: it calls [next()] with the user attached to the
    request, or it answers. *)
Inductive Gate :=
| Next (user : User)
| Answer (statusCode : nat) (error : string).

(** [s.replace(pattern, "")] for a string pattern: the first occurrence of
    the pattern is removed. *)
Fixpoint removeFirst (pattern s : string) : string :=
  if String.prefix pattern s then
    String.substring (String.length pattern) (String.length s - String.length pattern) s
  else
    match s with
    | EmptyString => EmptyString
    | String c s' => String c (removeFirst pattern s')
    end.

(** [req.header("Authorization")?.replace("Bearer ", "")]; [None] is
    [undefined]. *)
Definition tokenOf (header : option string) : option string :=
  removeFirst "Bearer " <$> header.

(** [decoded._id || decoded.sub || decoded.userId || decoded.id] *)
Definition userIdOf (decoded : Decoded) : string :=
  if negb (bool_decide (decoded_id decoded = "")) then decoded_id decoded
  else if negb (bool_decide (decodedSub decoded = "")) then decodedSub decoded
  else if negb (bool_decide (decodedUserId decoded = "")) then decodedUserId decoded
  else decodedId decoded.

(** The three middlewares differ in the status of their refusals, in the
    role they ask for and in their messages. [refusal] is 401 for [auth] and
    403 for the other two; [allowed] is the test on the role. *)
Definition authenticate (refusal : nat) (allowed : string → bool)
    (noToken denied invalid expired : string)
    (env : AuthAnswers) (header : option string) : Gate :=
  match tokenOf header with
  | None => Answer refusal noToken
  | Some token =>
      if bool_decide (token = "") then Answer refusal noToken
      else
        match verify env token with
        | inr name =>
            if bool_decide (name = "JsonWebTokenError") then Answer refusal invalid
            else if bool_decide (name = "TokenExpiredError") then Answer refusal expired
            else Answer 500 "Server error."
        | inl decoded =>
            let userId := userIdOf decoded in
            if bool_decide (userId = "") then
              Answer refusal "Invalid token: missing user ID"
            else
              match findUser env userId with
              | inr name =>
                  if bool_decide (name = "JsonWebTokenError") then Answer refusal invalid
                  else if bool_decide (name = "TokenExpiredError") then
                    Answer refusal expired
                  else Answer 500 "Server error."
              | inl None => Answer refusal "Invalid token. User not found."
              | inl (Some user) =>
                  if allowed (role user) then Next user
                  else Answer refusal denied
              end
        end
  end.

(** [export const auth] *)
Definition auth : AuthAnswers → option string → Gate :=
  authenticate 401 (λ _, true) "Access denied. No token provided." ""
               "Invalid token." "Token expired.".

(** [export const adminAuth] *)
Definition adminAuth : AuthAnswers → option string → Gate :=
  authenticate 403 (λ r, bool_decide (r = "admin"))
               "Access denied. No token provided."
               "Access denied. Admin privileges required."
               "Invalid or expired token." "Invalid or expired token.".

(** [export const doctorAuth] *)
Definition doctorAuth : AuthAnswers → option string → Gate :=
  authenticate 403 (λ r, bool_decide (r = "doctor") || bool_decide (r = "admin"))
               "Access denied. No token provided."
               "Access denied. Doctor privileges required."
               "Invalid or expired token." "Invalid or expired token.".

(** [const isAdmin] of routes/admin.js, on the user [auth] attached. *)
Definition isAdmin (user : User) : Gate :=
  if negb (bool_decide (role user = "admin")) then
    Answer 403 "Access denied. Admin only."
  else Next user.

(** [w'] extends the effects of [w] by console output and store reads only:
    no mail, no sleep, no save. *)
Definition quietly (w w' : World) : Prop :=
  ∃ es, effects w' = effects w ++ es ∧ wire es = [] ∧ saves es = [].

(** A POST that is accepted throughout. *)
Definition sampleBody : ReminderBody :=
  mkReminderBody "  Eye drops " "Twice a day" "1970-01-01T00:00:09Z" "email" "a@b.com".

Definition sampleLibrary : DateLibrary :=
  mkDateLibrary (λ s, bool_decide (s = "1970-01-01T00:00:09Z"))
                (λ s, if decide (s = "1970-01-01T00:00:09Z") then Some 9000 else None).

Definition sampleCreate : CreateAnswers :=
  mkCreateAnswers 1000 "n1" None None 1001 JobCreated.

Definition sampleDelete : DeleteAnswers := mkDeleteAnswers None None None.

(** ** Text inside ASCII *)

(** [isSpace] is JavaScript's [\s] on ASCII characters: the six it lists are
    the ASCII characters [\s] matches. Outside ASCII [\s] also matches
    U+00A0, U+2028, U+FEFF and others, which a string of this model holds as
    several characters that [isSpace] does not know. What is said about
    [removeSpaces], [trim] and the validation of a body as an equivalence
    is therefore said about plain text. *)
Definition plain (s : string) : bool :=
  forallb (λ c, (nat_of_ascii c <? 128)%nat) (list_ascii_of_string s).

(** The three fields of a body that the validation chains trim. *)
Definition plainBody (body : ReminderBody) : bool :=
  plain (bodyTitle body) && plain (bodyNote body) && plain (bodyContactInfo body).

(** ** The callback, await by await *)

(** The callback is an async function: at an [await] it hands the event loop
    back, and a call of the service, a request or another callback runs
    before it goes on. A [Flight] is a callback that is suspended, with what
    its local variables hold. The sends and sleeps of one delivery are taken
    together: they read the transporter and add to the effects, and touch
    neither the table, the pending jobs nor the store. *)
Inductive Flight :=
| AtFindById (id : string)                    (* await Reminder.findById(reminder._id) *)
| AtSend (id : string) (existing : Reminder)  (* inside await this._processReminder(existingReminder) *)
| AtSave (id : string) (reminder : Reminder). (* await reminder.save() *)

(** The [catch] block of the callback. *)
Definition caught (id : string) (err : JsError) : World → World :=
  emit (Console (ErrorProcessing id (describe err))).

(** The [finally] block of the callback: [this.scheduledJobs.delete(reminderIdStr)]. *)
Definition cleanUp (id : string) : World → World := setScheduledJobs (delete id).

(** Job [j] fires and its callback runs up to its first await. *)
Definition begin (j : nat) (w : World) : option Flight * World :=
  match fire j w with
  | Some (id, w') => (Some (AtFindById id), emit (FindById id) w')
  | None => (None, w)
  end.

(** The suspended callback goes on to its next await, or to its end. *)
Definition advance (env : Answers) (f : Flight) (w : World) : option Flight * World :=
  match f with
  | AtFindById id =>
      match findByIdRejects env with
      | Some err => (None, cleanUp id (caught id err w))
      | None =>
          match reminders w !! id with
          | Some existing =>
              if decide (status existing = pending) then (Some (AtSend id existing), w)
              else (None, cleanUp id w)
          | None => (None, cleanUp id w)
          end
      end
  | AtSend id existing =>
      match deliver env existing w with
      | (Returned result, w') =>
          let reminder := settled env result existing in
          (Some (AtSave id reminder), emit (Save reminder) w')
      | (Thrown err, w') => (None, cleanUp id (caught id err w'))
      end
  | AtSave id reminder =>
      match saveRejects env with
      | None => (None, cleanUp id (setReminders <[_id reminder := reminder]> w))
      | Some err =>
          (None, cleanUp id (emit (Console (FailedToSaveStatus (describe err))) w))
      end
  end.

(** A callback that nothing interrupts: it is advanced until it has ended. *)
Fixpoint drain (fuel : nat) (env : Answers) (s : option Flight * World) : World :=
  match s.1, fuel with
  | Some f, S fuel' => drain fuel' env (advance env f s.2)
  | _, _ => s.2
  end.

(** ** The service with its callbacks in flight *)

(** What the event loop runs next: a whole call of the service (a [Dispatch]
    among them is a callback that nothing interrupts), the firing of a job,
    or the next part of the callback of a job that has fired. *)
Inductive Move :=
| Call (op : Op)
| Fires (j : nat)
| Resumes (j : nat) (env : Answers).

(** The world together with the suspended callbacks, each under the number
    of its job. *)
Definition Loop : Type := World * gmap nat Flight.

Definition suspend (j : nat) (s : option Flight * World) (flights : gmap nat Flight) : Loop :=
  match s with
  | (Some f, w) => (w, <[j := f]> flights)
  | (None, w) => (w, delete j flights)
  end.

Definition move (l : Loop) (m : Move) : Loop :=
  match m with
  | Call op => (step op l.1, l.2)
  | Fires j =>
      match timers l.1 !! j with
      | Some _ => suspend j (begin j l.1) l.2
      | None => l
      end
  | Resumes j env =>
      match l.2 !! j with
      | Some f => suspend j (advance env f l.1) l.2
      | None => l
      end
  end.

Definition play (moves : list Move) (w : World) : Loop := foldl move (w, ∅) moves.

(** A cast for the short ids of the samples: the letters are read in either
    case, and the empty string denotes no id. *)
Definition lowerCase (c : ascii) : ascii :=
  let n := nat_of_ascii c in
  if ((65 <=? n) && (n <=? 90))%nat then ascii_of_nat (n + 32) else c.

Definition sampleCast : IdCast :=
  λ s, if decide (s = "") then None
       else Some (string_of_list_ascii (map lowerCase (list_ascii_of_string s))).

(** * Properties *)

(** ** Events *)

Lemma emit_emits e w : emit e w = emits [e] w.
Proof. reflexivity. Qed.

Lemma emits_emits es es' w : emits es' (emits es w) = emits (es ++ es') w.
Proof. unfold emits; simpl. by rewrite app_assoc. Qed.

Lemma since_emits es w : since w (emits es w) = es.
Proof. unfold since, emits; simpl. by rewrite drop_app_length. Qed.

Lemma since_refl w : since w w = [].
Proof. unfold since. by rewrite drop_all. Qed.

(** ** The retry loop *)

Lemma sendLoop_eq transport email title attempt :
  sendLoop transport email title attempt =
  if decide (attempt < maxAttempts)%nat then
    let attempt' := (attempt + 1)%nat in
    tryCatch
      (sendMail email title (transport attempt') ;;
       ret (Some Success))
      (λ error,
         let msg := describe error in
         exec (emit (Console (EmailSendingFailed attempt' email msg))) ;;
         if decide (attempt' < maxAttempts)%nat then
           let backoff := (attempt' * 700)%nat in
           sleep backoff ;;
           sendLoop transport email title attempt'
         else
           ret (Some (Failure msg)))
  else ret None.
Proof.
  simp sendLoop. destruct (decide (attempt < maxAttempts)%nat); reflexivity.
Qed.

(** The loop entered at [attempt = 0], by the answers of the transport. *)
Lemma sendLoop_0 transport email title w :
  let sent := SendMail email ("Reminder: " ++ title)%string in
  let failed k e := Console (EmailSendingFailed k email (describe e)) in
  sendLoop transport email title 0%nat w =
  match transport 1%nat, transport 2%nat, transport 3%nat with
  | None, _, _ => (Returned (Some Success), emits [sent] w)
  | Some e1, None, _ =>
      (Returned (Some Success),
       emits [sent; failed 1%nat e1; Sleep 700; sent] w)
  | Some e1, Some e2, None =>
      (Returned (Some Success),
       emits [sent; failed 1%nat e1; Sleep 700;
              sent; failed 2%nat e2; Sleep 1400; sent] w)
  | Some e1, Some e2, Some e3 =>
      (Returned (Some (Failure (describe e3))),
       emits [sent; failed 1%nat e1; Sleep 700;
              sent; failed 2%nat e2; Sleep 1400;
              sent; failed 3%nat e3] w)
  end.
Proof.
  intros sent failed'.
  rewrite sendLoop_eq. simpl.
  unfold tryCatch, bind, sendMail, exec, await, ret, sleep, bind; simpl.
  destruct (transport 1%nat) as [e1|]; [|reflexivity].
  rewrite sendLoop_eq. simpl.
  unfold tryCatch, bind, sendMail, exec, await, ret, sleep, bind; simpl.
  destruct (transport 2%nat) as [e2|];
    [|rewrite !emit_emits, !emits_emits; reflexivity].
  rewrite sendLoop_eq. simpl.
  unfold tryCatch, bind, sendMail, exec, await, ret, sleep, bind; simpl.
  destruct (transport 3%nat) as [e3|];
    rewrite !emit_emits, !emits_emits; reflexivity.
Qed.

(** Whatever the transport answers, [sendEmailNotification] resolves (it
    never throws) and only adds events. *)
Lemma sendEmailNotification_emits transport email title w :
  ∃ result es,
    sendEmailNotification transport email title w = (Returned result, emits es w).
Proof.
  unfold sendEmailNotification.
  destruct (emailTransporter w); simpl.
  - rewrite sendLoop_0.
    destruct (transport 1%nat), (transport 2%nat), (transport 3%nat); eauto.
  - unfold bind, exec, ret. rewrite emit_emits. eauto.
Qed.

(** [scheduleReminder] in closed form. *)
Lemma scheduleReminder_eq reminder now answer w :
  let id := _id reminder in
  let w1 := cancelExisting id w in
  scheduleReminder reminder now answer w =
  match dateTime reminder with
  | None => (Returned false, emit (Console (InvalidDateTime id)) w1)
  | Some d =>
      if decide (d ≤ now)%Z then
        (Returned false, emit (Console (DateInPast id)) w1)
      else
        match answer with
        | JobCreated =>
            (Returned true,
             mkWorld (emailTransporter w1)
                     (<[id := nextJob w1]> (scheduledJobs w1))
                     (<[nextJob w1 := mkJob d id]> (timers w1))
                     (S (nextJob w1)) (reminders w1) (effects w1))
        | JobNull => (Returned false, emit (Console (FailedToScheduleJob id)) w1)
        | JobThrows e =>
            (Returned false, emit (Console (UnexpectedError (describe e))) w1)
        end
  end.
Proof.
  intros id w1. unfold scheduleReminder, tryCatch, bind, exec, ret; simpl.
  fold id. fold w1.
  destruct (dateTime reminder) as [d|]; [|reflexivity].
  destruct (decide (d ≤ now)%Z); [reflexivity|].
  destruct answer; reflexivity.
Qed.

(** ** The timer callback in closed form *)

Lemma emits_nil w : emits [] w = w.
Proof. destruct w; unfold emits; simpl. by rewrite app_nil_r. Qed.

Lemma deliver_emits env reminder w :
  ∃ result es, deliver env reminder w = (Returned result, emits es w) ∧ saves es = [].
Proof.
  unfold deliver.
  destruct (decide (notificationType reminder = "email")).
  - unfold sendEmailNotification.
    destruct (emailTransporter w); simpl.
    + rewrite sendLoop_0.
      destruct (transport env 1%nat), (transport env 2%nat), (transport env 3%nat);
        eauto.
    + unfold bind, exec, ret. rewrite emit_emits. eauto.
  - destruct (decide (notificationType reminder = "sms"));
      eexists _, []; rewrite emits_nil; done.
Qed.

Lemma settled_id env result r : _id (settled env result r) = _id r.
Proof. unfold settled. by destruct (succeeded result). Qed.

Lemma _processReminder_eq env reminder w :
  ∃ result es,
    deliver env reminder w = (Returned result, emits es w) ∧
    saves es = [] ∧
    let doc := settled env result reminder in
    _processReminder env reminder w =
    (Returned tt,
     match saveRejects env with
     | None => setReminders <[_id reminder := doc]> (emits (es ++ [Save doc]) w)
     | Some e =>
         emits (es ++ [Save doc; Console (FailedToSaveStatus (describe e))]) w
     end).
Proof.
  destruct (deliver_emits env reminder w) as (result & es & Hd & Hs).
  exists result, es. split; [done|]. split; [done|].
  unfold _processReminder, bind. rewrite Hd.
  fold (settled env result reminder).
  unfold tryCatch, save, bind, exec, await.
  rewrite emit_emits, emits_emits.
  destruct (saveRejects env) as [e|].
  - rewrite emit_emits, emits_emits, <- app_assoc. reflexivity.
  - by rewrite settled_id.
Qed.

Lemma callback_eq id env w :
  callback id env w = (Returned tt, setScheduledJobs (delete id) (afterBody id env w)).
Proof.
  unfold callback, tryFinally, tryCatch, findById, bind, exec, await, afterBody.
  rewrite emit_emits.
  destruct (findByIdRejects env) as [e|].
  - by rewrite emit_emits, emits_emits.
  - simpl. destruct (reminders w !! id) as [existing|]; [|reflexivity].
    destruct (decide (status existing = pending)); [|reflexivity].
    destruct (_processReminder_eq env existing (emits [FindById id] w))
      as (result & es & _ & _ & ->).
    reflexivity.
Qed.

Lemma sameScheduler_refl w : sameScheduler w w.
Proof. by repeat split. Qed.

Lemma sameScheduler_emits es w : sameScheduler w (emits es w).
Proof. by repeat split. Qed.

Lemma afterBody_sameScheduler id env w : sameScheduler w (afterBody id env w).
Proof.
  unfold afterBody.
  destruct (findByIdRejects env); [apply sameScheduler_emits|].
  destruct (reminders w !! id) as [existing|]; [|apply sameScheduler_emits].
  destruct (decide (status existing = pending)); [|apply sameScheduler_emits].
  destruct (_processReminder_eq env existing (emits [FindById id] w))
    as (result & es & _ & _ & ->).
  simpl. destruct (saveRejects env); by repeat split.
Qed.

(** ** The table and the pending jobs agree in every reachable world *)

Lemma Consistent_same w w' : sameScheduler w w' → Consistent w → Consistent w'.
Proof.
  intros (_ & Ht & Hj & Hn) [H1 H2 H3].
  split; rewrite ?Ht, ?Hj, ?Hn; assumption.
Qed.

Lemma Consistent_constructor user pass store : Consistent (constructor user pass store).
Proof.
  split; simpl.
  - intros id j H. by rewrite lookup_empty in H.
  - intros j job H. by rewrite lookup_empty in H.
  - intros j [job H]. by rewrite lookup_empty in H.
Qed.

(** Removing the entry of [id] and cancelling the job [j] it holds. *)
Lemma Consistent_remove id j w w' :
  Consistent w →
  scheduledJobs w !! id = Some j →
  scheduledJobs w' = delete id (scheduledJobs w) →
  timers w' = delete j (timers w) →
  nextJob w' = nextJob w →
  Consistent w'.
Proof.
  intros [H1 H2 H3] Hid Ht Hj Hn.
  destruct (H1 _ _ Hid) as [d0 Hd0].
  split; rewrite ?Ht, ?Hj, ?Hn.
  - intros id' j' H.
    apply lookup_delete_Some in H as [Hne H].
    destruct (H1 _ _ H) as [d Hd]. exists d.
    rewrite lookup_delete_ne; [done|].
    intros ->. rewrite Hd0 in Hd. congruence.
  - intros j' job H.
    apply lookup_delete_Some in H as [Hne H].
    specialize (H2 _ _ H).
    rewrite lookup_delete_ne; [done|].
    intros Heq. rewrite <- Heq in H2. congruence.
  - intros j' [job H].
    apply lookup_delete_Some in H as [_ H]. apply H3. eauto.
Qed.

Lemma Consistent_cancelExisting id w :
  Consistent w → Consistent (cancelExisting id w).
Proof.
  intros Hc. unfold cancelExisting.
  destruct (scheduledJobs w !! id) as [j|] eqn:Hid; [|done].
  by eapply (Consistent_remove id j w).
Qed.

Lemma cancelExisting_lookup id w : scheduledJobs (cancelExisting id w) !! id = None.
Proof.
  unfold cancelExisting.
  destruct (scheduledJobs w !! id) as [j|] eqn:Hid; [|done].
  simpl. apply lookup_delete_eq.
Qed.

(** Registering a new job for an [id] that has no entry. *)
Lemma Consistent_register id d w w' :
  Consistent w →
  scheduledJobs w !! id = None →
  scheduledJobs w' = <[id := nextJob w]> (scheduledJobs w) →
  timers w' = <[nextJob w := mkJob d id]> (timers w) →
  nextJob w' = S (nextJob w) →
  Consistent w'.
Proof.
  intros [H1 H2 H3] Hid Ht Hj Hn.
  split; rewrite ?Ht, ?Hj, ?Hn.
  - intros id' j' H.
    apply lookup_insert_Some in H as [[<- <-]|[Hne H]].
    + exists d. apply lookup_insert_eq.
    + destruct (H1 _ _ H) as [d' Hd']. exists d'.
      rewrite lookup_insert_ne; [done|].
      intros <-. assert (nextJob w < nextJob w)%nat by (apply H3; eauto). lia.
  - intros j' job H.
    apply lookup_insert_Some in H as [[<- <-]|[Hne H]].
    + simpl. apply lookup_insert_eq.
    + specialize (H2 _ _ H).
      rewrite lookup_insert_ne; [done|].
      intros Heq. rewrite <- Heq in H2. congruence.
  - intros j' [job H].
    apply lookup_insert_Some in H as [[<- <-]|[Hne H]]; [lia|].
    assert (j' < nextJob w)%nat by (apply H3; eauto). lia.
Qed.

Lemma Consistent_scheduleReminder reminder now answer w :
  Consistent w → Consistent (scheduleReminder reminder now answer w).2.
Proof.
  intros Hc. rewrite scheduleReminder_eq.
  pose proof (Consistent_cancelExisting (_id reminder) w Hc) as Hc1.
  pose proof (cancelExisting_lookup (_id reminder) w) as Hnone.
  destruct (dateTime reminder) as [d|];
    [|by apply (Consistent_same (cancelExisting (_id reminder) w))].
  destruct (decide (d ≤ now)%Z);
    [by apply (Consistent_same (cancelExisting (_id reminder) w))|].
  destruct answer;
    [|by apply (Consistent_same (cancelExisting (_id reminder) w))..].
  by eapply (Consistent_register (_id reminder) d (cancelExisting (_id reminder) w)).
Qed.

Lemma Consistent_cancelScheduledReminder reminderId w :
  Consistent w → Consistent (cancelScheduledReminder reminderId w).2.
Proof.
  intros Hc. unfold cancelScheduledReminder.
  destruct (scheduledJobs w !! reminderId) as [j|] eqn:Hid; [|done].
  by eapply (Consistent_remove reminderId j w).
Qed.

(** The jobs left by the loop of [cancelAllScheduled]. *)
Lemma cancelAll_loop (entries : list (string * nat)) w :
  let w' := foldr (λ entry, cancelJob entry.2) w entries in
  scheduledJobs w' = scheduledJobs w ∧
  nextJob w' = nextJob w ∧
  emailTransporter w' = emailTransporter w ∧
  reminders w' = reminders w ∧
  effects w' = effects w ∧
  ∀ j, timers w' !! j =
       if decide (j ∈ entries.*2) then None else timers w !! j.
Proof.
  induction entries as [|[id j0] entries IH]; simpl.
  - split_and!; done.
  - destruct IH as (-> & -> & -> & -> & -> & IH). split_and!; try done.
    intros j. destruct (decide (j = j0)) as [->|Hne].
    + rewrite lookup_delete_eq. rewrite decide_True; [done|]. apply list_elem_of_here.
    + rewrite lookup_delete_ne by done. rewrite IH.
      destruct (decide (j ∈ entries.*2)) as [Hin|Hnin].
      * rewrite decide_True; [done|]. by apply list_elem_of_further.
      * rewrite decide_False; [done|]. by intros [?|?]%elem_of_cons.
Qed.

Lemma Consistent_cancelAllScheduled w :
  Consistent w → Consistent (cancelAllScheduled w).2.
Proof.
  intros [H1 H2 H3]. unfold cancelAllScheduled.
  destruct (cancelAll_loop (map_to_list (scheduledJobs w)) w)
    as (Ht & Hn & _ & _ & _ & Hj).
  split; simpl.
  - intros id j H. by rewrite lookup_empty in H.
  - intros j job H. exfalso. rewrite Hj in H.
    destruct (decide (j ∈ (map_to_list (scheduledJobs w)).*2)) as [|Hnin]; [done|].
    apply Hnin. apply list_elem_of_fmap.
    exists (jobReminder job, j). split; [done|].
    apply elem_of_map_to_list. by apply H2.
  - intros j [job H]. rewrite Hn. apply H3. rewrite Hj in H.
    destruct (decide (j ∈ (map_to_list (scheduledJobs w)).*2)); [done|]. eauto.
Qed.

Lemma Consistent_dispatch j env w :
  Consistent w → Consistent (dispatch j env w).2.
Proof.
  intros Hc. unfold dispatch, fire.
  destruct (timers w !! j) as [job|] eqn:Hj; [|done].
  rewrite callback_eq. simpl.
  destruct (afterBody_sameScheduler (jobReminder job) env (setTimers (delete j) w))
    as (_ & Ht & Hj' & Hn).
  eapply (Consistent_remove (jobReminder job) j w); simpl; try done.
  - by apply (live_table w Hc).
  - by rewrite Ht.
Qed.

(** ** What one [scheduleReminder] call leaves *)

Lemma cancelExisting_frame id w :
  let w' := cancelExisting id w in
  emailTransporter w' = emailTransporter w ∧
  nextJob w' = nextJob w ∧
  reminders w' = reminders w ∧
  effects w' = effects w ∧
  scheduledJobs w' = delete id (scheduledJobs w) ∧
  timers w' = match scheduledJobs w !! id with
              | Some j => delete j (timers w)
              | None => timers w
              end.
Proof.
  unfold cancelExisting.
  destruct (scheduledJobs w !! id) as [j|] eqn:Hid; simpl; split_and!; try done.
  symmetry. by apply delete_id.
Qed.

Lemma scheduleReminder_accepted reminder now answer w :
  accepted reminder now answer = true →
  ∃ d, dateTime reminder = Some d ∧ (now < d)%Z ∧
    let w1 := cancelExisting (_id reminder) w in
    scheduleReminder reminder now answer w =
    (Returned true,
     mkWorld (emailTransporter w)
             (<[_id reminder := nextJob w]> (scheduledJobs w1))
             (<[nextJob w := mkJob d (_id reminder)]> (timers w1))
             (S (nextJob w)) (reminders w) (effects w)).
Proof.
  unfold accepted. intros Hacc.
  destruct (dateTime reminder) as [d|] eqn:Hd; [|done].
  destruct answer; try done.
  apply bool_decide_eq_true in Hacc.
  exists d. split_and!; try done.
  rewrite scheduleReminder_eq, Hd.
  destruct (decide (d ≤ now)%Z); [lia|].
  destruct (cancelExisting_frame (_id reminder) w) as (-> & -> & -> & -> & _).
  reflexivity.
Qed.

Lemma scheduleReminder_rejected reminder now answer w :
  accepted reminder now answer = false →
  ∃ report,
    scheduleReminder reminder now answer w =
    (Returned false, emit (Console report) (cancelExisting (_id reminder) w)).
Proof.
  unfold accepted. intros Hacc. rewrite scheduleReminder_eq.
  destruct (dateTime reminder) as [d|] eqn:Hd; [|eauto].
  destruct (decide (d ≤ now)%Z); [eauto|].
  destruct answer; eauto.
  apply bool_decide_eq_false in Hacc. lia.
Qed.

(** What the call does not touch. *)
Lemma scheduleReminder_frame reminder now answer w :
  let w' := (scheduleReminder reminder now answer w).2 in
  emailTransporter w' = emailTransporter w ∧
  reminders w' = reminders w ∧
  (nextJob w ≤ nextJob w')%nat ∧
  (∀ id, id ≠ _id reminder → scheduledJobs w' !! id = scheduledJobs w !! id).
Proof.
  destruct (cancelExisting_frame (_id reminder) w) as (He & Hn & Hr & _ & Ht & _).
  destruct (accepted reminder now answer) eqn:Hacc.
  - destruct (scheduleReminder_accepted _ _ _ w Hacc) as (d & _ & _ & ->). simpl.
    split_and!; try done; [lia|].
    intros id Hne. rewrite lookup_insert_ne by done. rewrite Ht.
    by rewrite lookup_delete_ne.
  - destruct (scheduleReminder_rejected _ _ _ w Hacc) as (report & ->). simpl.
    split_and!; try done; [lia|].
    intros id Hne. rewrite Ht. by rewrite lookup_delete_ne.
Qed.

(** The pending jobs of the other reminders are the same before and after. *)
Lemma scheduleReminder_others reminder now answer w j job :
  Consistent w →
  jobReminder job ≠ _id reminder →
  timers (scheduleReminder reminder now answer w).2 !! j = Some job ↔
  timers w !! j = Some job.
Proof.
  intros Hc Hne.
  destruct (cancelExisting_frame (_id reminder) w) as (_ & _ & _ & _ & _ & Hj).
  assert (timers (cancelExisting (_id reminder) w) !! j = Some job ↔
          timers w !! j = Some job) as Hcancel.
  { rewrite Hj. destruct (scheduledJobs w !! _id reminder) as [j0|] eqn:Hid; [|done].
    rewrite lookup_delete_Some. split; [tauto|]. intros H. split; [|done].
    intros <-. destruct (table_live w Hc _ _ Hid) as [d Hd].
    rewrite Hd in H. inversion H; subst. done. }
  destruct (accepted reminder now answer) eqn:Hacc.
  - destruct (scheduleReminder_accepted _ _ _ w Hacc) as (d & _ & _ & ->). simpl.
    rewrite lookup_insert_Some, Hcancel. split.
    + intros [[_ <-]|[_ H]]; done.
    + intros H. right. split; [|done].
      intros <-. assert (nextJob w < nextJob w)%nat; [|lia].
      apply (live_allocated w Hc). eauto.
  - destruct (scheduleReminder_rejected _ _ _ w Hacc) as (report & ->). done.
Qed.

(** ** The loop of [restorePendingReminders] *)

Lemma restoreOne_eq env reminder w :
  restoreOne env reminder w =
  (Returned tt,
   (scheduleReminder reminder (clockAt env (_id reminder))
                     (jobAt env (_id reminder)) w).2).
Proof.
  unfold restoreOne, bind, ret.
  destruct (accepted reminder (clockAt env (_id reminder)) (jobAt env (_id reminder)))
    eqn:Hacc.
  - by destruct (scheduleReminder_accepted _ _ _ w Hacc) as (d & _ & _ & ->).
  - by destruct (scheduleReminder_rejected _ _ _ w Hacc) as (report & ->).
Qed.

Lemma restore_loop env (l : list Reminder) w :
  Consistent w →
  NoDup (_id <$> l) →
  ∃ w',
    forOf l (restoreOne env) w = (Returned tt, w') ∧
    Consistent w' ∧
    emailTransporter w' = emailTransporter w ∧
    reminders w' = reminders w ∧
    (nextJob w ≤ nextJob w')%nat ∧
    (∀ id, id ∉ _id <$> l → scheduledJobs w' !! id = scheduledJobs w !! id) ∧
    (∀ j job, jobReminder job ∉ _id <$> l →
              timers w' !! j = Some job ↔ timers w !! j = Some job) ∧
    (∀ r, r ∈ l →
          let id := _id r in
          if accepted r (clockAt env id) (jobAt env id) then
            ∃ j d, (nextJob w ≤ j)%nat ∧ dateTime r = Some d ∧
                   scheduledJobs w' !! id = Some j ∧
                   timers w' !! j = Some (mkJob d id)
          else scheduledJobs w' !! id = None).
Proof.
  revert w. induction l as [|r l IH]; intros w Hc Hnd.
  - exists w. simpl. split_and!; try done. intros r Hr. by apply elem_of_nil in Hr.
  - rewrite fmap_cons in Hnd. apply NoDup_cons in Hnd as [Hr Hnd].
    set (now := clockAt env (_id r)). set (answer := jobAt env (_id r)).
    set (w1 := (scheduleReminder r now answer w).2).
    pose proof (Consistent_scheduleReminder r now answer w Hc) as Hc1. fold w1 in Hc1.
    destruct (scheduleReminder_frame r now answer w) as (He1 & Hr1 & Hn1 & Ht1).
    fold w1 in He1, Hr1, Hn1, Ht1.
    destruct (IH w1 Hc1 Hnd) as (w' & Hrun & Hc' & He & Hrem & Hn & Ht & Hj & Hin).
    exists w'. split_and!; try done.
    + simpl. unfold bind at 1. rewrite restoreOne_eq. fold now answer w1. done.
    + congruence.
    + congruence.
    + lia.
    + intros id Hid. rewrite fmap_cons in Hid. apply not_elem_of_cons in Hid as [Hne Hid].
      rewrite Ht by done. by apply Ht1.
    + intros j job Hid. rewrite fmap_cons in Hid.
      apply not_elem_of_cons in Hid as [Hne Hid].
      rewrite Hj by done. by apply scheduleReminder_others.
    + intros r' [->|Hr']%elem_of_cons; simpl.
      * fold now answer. destruct (accepted r now answer) eqn:Hacc.
        -- destruct (scheduleReminder_accepted _ _ _ w Hacc) as (d & Hd & _ & Heq).
           exists (nextJob w), d. split_and!; try done.
           ++ rewrite Ht by done. unfold w1. rewrite Heq. simpl. apply lookup_insert_eq.
           ++ apply Hj; [done|]. unfold w1. rewrite Heq. simpl. apply lookup_insert_eq.
        -- destruct (scheduleReminder_rejected _ _ _ w Hacc) as (report & Heq).
           rewrite Ht by done. unfold w1. rewrite Heq. simpl.
           apply cancelExisting_lookup.
      * specialize (Hin r' Hr'). simpl in Hin.
        destruct (accepted r' (clockAt env (_id r')) (jobAt env (_id r'))); [|done].
        destruct Hin as (j & d & Hle & Hd & Hs & Htm).
        exists j, d. split_and!; try done. lia.
Qed.

(** ** Recovery *)

Lemma pendingAfter_true now r :
  pendingAfter now r = true ↔
  status r = pending ∧ ∃ d, dateTime r = Some d ∧ (now < d)%Z.
Proof.
  unfold pendingAfter. rewrite andb_true_iff, bool_decide_eq_true.
  destruct (dateTime r) as [d|].
  - rewrite bool_decide_eq_true. split.
    + intros [? ?]. eauto.
    + intros [? (d' & [= <-] & ?)]. done.
  - split; [intros [_ [=]]|intros [_ (d & [=] & _)]].
Qed.

Lemma pendingAfter_false now r :
  pendingAfter now r = false ↔
  status r ≠ pending ∨ dateTime r = None ∨ ∃ d, dateTime r = Some d ∧ (d ≤ now)%Z.
Proof.
  rewrite <- not_true_iff_false, pendingAfter_true. split.
  - intros Hn. destruct (decide (status r = pending)) as [Hs|]; [|by left].
    right. destruct (dateTime r) as [d|]; [|by left].
    right. exists d. split; [done|].
    destruct (decide (d ≤ now)%Z); [done|]. exfalso. apply Hn. split; [done|].
    exists d. split; [done|lia].
  - intros [Hs|[Hd|(d & Hd & Hle)]] [Hs' (d' & Hd' & Hlt)]; [done|congruence|].
    rewrite Hd in Hd'. inversion Hd'; subst. lia.
Qed.

Lemma found_elem now store r :
  wellKeyed store →
  r ∈ found now store ↔ store !! _id r = Some r ∧ pendingAfter now r = true.
Proof.
  intros Hk. unfold found. rewrite list_elem_of_filter, list_elem_of_fmap. split.
  - intros [Hp ([id r'] & -> & Hin)]. simpl in *.
    apply elem_of_map_to_list in Hin. by rewrite (Hk _ _ Hin).
  - intros [Hin Hp]. split; [done|].
    exists (_id r, r). split; [done|]. by apply elem_of_map_to_list.
Qed.

Lemma found_NoDup now store : wellKeyed store → NoDup (_id <$> found now store).
Proof.
  intros Hk. unfold found.
  eapply sublist_NoDup; [|apply fmap_sublist, sublist_filter].
  rewrite <- list_fmap_compose.
  rewrite (list_fmap_ext (_id ∘ snd) fst).
  - apply NoDup_fst_map_to_list.
  - intros i [id r] Hi. simpl. apply (Hk id r).
    apply elem_of_map_to_list. by eapply list_elem_of_lookup_2.
Qed.

Lemma forOf_restoreOne_cons env r (l : list Reminder) w :
  forOf (r :: l) (restoreOne env) w =
  forOf l (restoreOne env)
        (scheduleReminder r (clockAt env (_id r)) (jobAt env (_id r)) w).2.
Proof. simpl. unfold bind at 1. by rewrite restoreOne_eq. Qed.

Lemma forOf_restoreOne env (l : list Reminder) w :
  (forOf l (restoreOne env) w).1 = Returned tt.
Proof.
  revert w. induction l as [|r l IH]; intros w; [done|].
  rewrite forOf_restoreOne_cons. apply IH.
Qed.

Lemma restorePendingReminders_eq env w :
  restorePendingReminders env w =
  (Returned tt,
   match findRejects env with
   | Some e =>
       emits [Find (queryClock env); Console (ErrorRestoring (describe e))] w
   | None =>
       (forOf (found (queryClock env) (reminders w)) (restoreOne env)
              (emits [Find (queryClock env)] w)).2
   end).
Proof.
  unfold restorePendingReminders, tryCatch, find, bind, exec, await.
  rewrite emit_emits.
  destruct (findRejects env) as [e|].
  - by rewrite emit_emits, emits_emits.
  - simpl.
    pose proof (forOf_restoreOne env (found (queryClock env) (reminders w))
                  (emits [Find (queryClock env)] w)) as Hret.
    destruct (forOf _ _ _) as [out w']. simpl in Hret. by subst.
Qed.

Lemma forOf_restoreOne_frame env (l : list Reminder) w :
  let w' := (forOf l (restoreOne env) w).2 in
  emailTransporter w' = emailTransporter w ∧
  reminders w' = reminders w ∧
  (Consistent w → Consistent w').
Proof.
  revert w. induction l as [|r l IH]; intros w; [done|].
  rewrite forOf_restoreOne_cons.
  set (w1 := (scheduleReminder r _ _ w).2).
  destruct (IH w1) as (He & Hr & Hc).
  destruct (scheduleReminder_frame r (clockAt env (_id r)) (jobAt env (_id r)) w)
    as (He1 & Hr1 & _).
  fold w1 in He1, Hr1.
  split_and!; [congruence|congruence|].
  intros Hcw. apply Hc. by apply Consistent_scheduleReminder.
Qed.

Lemma restorePendingReminders_frame env w :
  let w' := (restorePendingReminders env w).2 in
  emailTransporter w' = emailTransporter w ∧
  reminders w' = reminders w ∧
  (Consistent w → Consistent w').
Proof.
  rewrite restorePendingReminders_eq. simpl.
  destruct (findRejects env) as [e|].
  - split_and!; try done. by apply Consistent_same.
  - destruct (forOf_restoreOne_frame env (found (queryClock env) (reminders w))
                (emits [Find (queryClock env)] w)) as (He & Hr & Hc).
    split_and!; try done. intros Hcw. apply Hc. by apply (Consistent_same w).
Qed.

(** ** Every whole operation keeps the table and the pending jobs in agreement *)

Lemma Consistent_step op w : Consistent w → Consistent (step op w).
Proof.
  destruct op; simpl.
  - apply Consistent_scheduleReminder.
  - apply Consistent_cancelScheduledReminder.
  - apply Consistent_cancelAllScheduled.
  - apply Consistent_dispatch.
  - apply restorePendingReminders_frame.
Qed.

Lemma Consistent_run acts w : Consistent w → Consistent (run acts w).
Proof.
  revert w. induction acts as [|a acts IH]; intros w Hc; [done|].
  simpl. apply IH. destruct a as [op|store]; simpl.
  - by apply Consistent_step.
  - by apply (Consistent_same w).
Qed.

Lemma step_emailTransporter op w : emailTransporter (step op w) = emailTransporter w.
Proof.
  destruct op; simpl.
  - apply scheduleReminder_frame.
  - unfold cancelScheduledReminder. by destruct (scheduledJobs w !! reminderId).
  - unfold cancelAllScheduled. simpl. apply cancelAll_loop.
  - unfold dispatch, fire. destruct (timers w !! j) as [job|]; [|done].
    rewrite callback_eq. simpl.
    by destruct (afterBody_sameScheduler (jobReminder job) env (setTimers (delete j) w))
      as (-> & _).
  - apply restorePendingReminders_frame.
Qed.

Lemma run_emailTransporter acts w : emailTransporter (run acts w) = emailTransporter w.
Proof.
  revert w. induction acts as [|a acts IH]; intros w; [done|].
  simpl. rewrite IH. destruct a as [op|store]; [apply step_emailTransporter|done].
Qed.

(** ** The pending jobs of a reminder *)

Lemma liveJobs_elem id w j :
  j ∈ liveJobs id w ↔ ∃ job, timers w !! j = Some job ∧ jobReminder job = id.
Proof.
  unfold liveJobs. rewrite list_elem_of_fmap. split.
  - intros ([j' job] & -> & Hin). apply elem_of_map_to_list in Hin.
    apply map_lookup_filter_Some in Hin as [Hj Hid]. eauto.
  - intros (job & Hj & Hid). exists (j, job). split; [done|].
    apply elem_of_map_to_list. by apply map_lookup_filter_Some.
Qed.

Lemma liveJobs_NoDup id w : NoDup (liveJobs id w).
Proof. apply NoDup_fst_map_to_list. Qed.

Lemma NoDup_only {A} (l : list A) (a : A) :
  NoDup l → (∀ x, x ∈ l ↔ x = a) → l = [a].
Proof.
  intros Hnd Hl. destruct l as [|x l].
  - exfalso. eapply not_elem_of_nil. by apply (Hl a).
  - assert (x = a) as -> by (apply Hl; left).
    apply NoDup_cons in Hnd as [Hx Hnd]. f_equal.
    destruct l as [|y l]; [done|]. exfalso.
    assert (y = a) as -> by (apply Hl; right; left).
    apply Hx. left.
Qed.

(** Under [Consistent], the pending jobs of a reminder are its table entry. *)
Lemma liveJobs_Consistent id w :
  Consistent w →
  liveJobs id w = match scheduledJobs w !! id with
                  | Some j => [j]
                  | None => []
                  end.
Proof.
  intros Hc. destruct (scheduledJobs w !! id) as [j|] eqn:Hid.
  - apply NoDup_only; [apply liveJobs_NoDup|].
    intros j'. rewrite liveJobs_elem. split.
    + intros (job & Hj & <-). apply (live_table w Hc) in Hj. congruence.
    + intros ->. destruct (table_live w Hc _ _ Hid) as [d Hd]. eauto.
  - destruct (liveJobs id w) as [|j l] eqn:Hl; [done|]. exfalso.
    assert (j ∈ liveJobs id w) as Hin by (rewrite Hl; left).
    apply liveJobs_elem in Hin as (job & Hj & <-).
    apply (live_table w Hc) in Hj. congruence.
Qed.

(** ** Dispatch in closed form *)

Lemma dispatch_eq j env w job :
  timers w !! j = Some job →
  dispatch j env w =
  (Returned tt,
   setScheduledJobs (delete (jobReminder job))
     (afterBody (jobReminder job) env (setTimers (delete j) w))).
Proof. intros Hj. unfold dispatch, fire. rewrite Hj. apply callback_eq. Qed.

Lemma dispatch_scheduler j env w job :
  timers w !! j = Some job →
  let w' := (dispatch j env w).2 in
  scheduledJobs w' = delete (jobReminder job) (scheduledJobs w) ∧
  timers w' = delete j (timers w) ∧
  nextJob w' = nextJob w.
Proof.
  intros Hj. rewrite (dispatch_eq _ _ _ _ Hj). simpl.
  by destruct (afterBody_sameScheduler (jobReminder job) env (setTimers (delete j) w))
    as (_ & -> & -> & ->).
Qed.

(** An accepted call on a consistent world. *)
Lemma scheduleReminder_accepted_live reminder now answer w :
  Consistent w →
  accepted reminder now answer = true →
  let w' := (scheduleReminder reminder now answer w).2 in
  ∃ d, dateTime reminder = Some d ∧
       (scheduleReminder reminder now answer w).1 = Returned true ∧
       scheduledJobs w' !! _id reminder = Some (nextJob w) ∧
       timers w' !! nextJob w = Some (mkJob d (_id reminder)) ∧
       liveJobs (_id reminder) w' = [nextJob w] ∧
       nextJob w' = S (nextJob w) ∧
       (∀ existing, scheduledJobs w !! _id reminder = Some existing →
                    existing ≠ nextJob w ∧ timers w' !! existing = None).
Proof.
  intros Hc Hacc.
  pose proof (Consistent_scheduleReminder reminder now answer w Hc) as Hc'.
  destruct (scheduleReminder_accepted _ _ _ w Hacc) as (d & Hd & _ & Heq).
  rewrite Heq in *. simpl in *.
  exists d. split_and!; try done.
  - apply lookup_insert_eq.
  - apply lookup_insert_eq.
  - rewrite (liveJobs_Consistent _ _ Hc'). simpl. by rewrite lookup_insert_eq.
  - intros existing Hex.
    destruct (table_live w Hc _ _ Hex) as [d0 Hd0].
    assert (existing < nextJob w)%nat as Hlt by (apply (live_allocated w Hc); eauto).
    split; [lia|].
    rewrite lookup_insert_ne by lia.
    destruct (cancelExisting_frame (_id reminder) w) as (_ & _ & _ & _ & _ & ->).
    rewrite Hex. apply lookup_delete_eq.
Qed.

(** ** Whole steps: one job per reminder *)

(** Calls that nothing interrupts. In every world reached from the
    constructor by whole schedule, cancel, cancel-all, dispatch and recovery
    steps (with any changes of the store in between, and every callback run
    to the end of its [finally] block before the next step begins), a
    reminder id has at most one pending job and the table entry of the id
    is exactly that job. A schedule call that is accepted for an id
    holding a job cancels that job and leaves the new job as the only one of
    the id. After two accepted schedule calls in succession for one id the
    table holds one entry for the id, its job is the only pending job of the
    id, and once that job is dispatched none is left. *)
Theorem one_live_job_per_reminder :
  (∀ user pass store acts id,
     let w := run acts (constructor user pass store) in
     (List.length (liveJobs id w) ≤ 1)%nat ∧
     ∀ j, scheduledJobs w !! id = Some j ↔ j ∈ liveJobs id w)
  ∧
  (∀ user pass store acts reminder now answer existing,
     let w := run acts (constructor user pass store) in
     let w' := (scheduleReminder reminder now answer w).2 in
     scheduledJobs w !! _id reminder = Some existing →
     accepted reminder now answer = true →
     timers w' !! existing = None ∧
     ∃ j, j ≠ existing ∧
          scheduledJobs w' !! _id reminder = Some j ∧
          liveJobs (_id reminder) w' = [j])
  ∧
  (∀ user pass store acts r1 now1 answer1 r2 now2 answer2 env,
     let w := run acts (constructor user pass store) in
     let w1 := (scheduleReminder r1 now1 answer1 w).2 in
     let w2 := (scheduleReminder r2 now2 answer2 w1).2 in
     _id r1 = _id r2 →
     accepted r1 now1 answer1 = true →
     accepted r2 now2 answer2 = true →
     ∃ j d, dateTime r2 = Some d ∧
            scheduledJobs w2 !! _id r2 = Some j ∧
            timers w2 !! j = Some (mkJob d (_id r2)) ∧
            liveJobs (_id r2) w2 = [j] ∧
            let w3 := (dispatch j env w2).2 in
            scheduledJobs w3 !! _id r2 = None ∧
            liveJobs (_id r2) w3 = []).
Proof.
  split_and!.
  - intros user pass store acts id w.
    assert (Consistent w) as Hc by apply Consistent_run, Consistent_constructor.
    rewrite (liveJobs_Consistent _ _ Hc).
    destruct (scheduledJobs w !! id) as [j0|]; simpl.
    + split; [lia|]. intros j. rewrite list_elem_of_singleton. split; congruence.
    + split; [lia|]. intros j. split; [done|]. by intros ?%elem_of_nil.
  - intros user pass store acts reminder now answer existing w w' Hex Hacc.
    assert (Consistent w) as Hc by apply Consistent_run, Consistent_constructor.
    destruct (scheduleReminder_accepted_live reminder now answer w Hc Hacc)
      as (d & _ & _ & Ht & _ & Hl & _ & Hold).
    destruct (Hold _ Hex) as [Hne Hgone].
    split; [done|]. exists (nextJob w). split_and!; done.
  - intros user pass store acts r1 now1 answer1 r2 now2 answer2 env w w1 w2
           Hid Hacc1 Hacc2.
    assert (Consistent w) as Hc by apply Consistent_run, Consistent_constructor.
    assert (Consistent w1) as Hc1 by by apply Consistent_scheduleReminder.
    assert (Consistent w2) as Hc2 by by apply Consistent_scheduleReminder.
    destruct (scheduleReminder_accepted_live r2 now2 answer2 w1 Hc1 Hacc2)
      as (d & Hd & _ & Ht & Hj & Hl & _ & _).
    exists (nextJob w1), d. split_and!; try done.
    destruct (dispatch_scheduler (nextJob w1) env w2 _ Hj) as (Ht3 & _).
    simpl in Ht3.
    assert (scheduledJobs (dispatch (nextJob w1) env w2).2 !! _id r2 = None) as Hnone.
    { rewrite Ht3. apply lookup_delete_eq. }
    split; [done|].
    rewrite liveJobs_Consistent by by apply Consistent_dispatch.
    by rewrite Hnone.
Qed.

(** ** The store under the operations *)

Lemma step_reminders op w :
  (∀ j env, op ≠ Dispatch j env) → reminders (step op w) = reminders w.
Proof.
  intros Hop. destruct op; simpl.
  - apply scheduleReminder_frame.
  - unfold cancelScheduledReminder. by destruct (scheduledJobs w !! reminderId).
  - unfold cancelAllScheduled. simpl. apply cancelAll_loop.
  - by destruct (Hop j env).
  - apply restorePendingReminders_frame.
Qed.

(** What a dispatch does to the store: nothing, or one write of the settled
    document of the job's reminder when that reminder is found pending. *)
Lemma dispatch_reminders j env w :
  wellKeyed (reminders w) →
  reminders (dispatch j env w).2 = reminders w ∨
  ∃ job r result es,
    timers w !! j = Some job ∧
    reminders w !! jobReminder job = Some r ∧
    status r = pending ∧
    findByIdRejects env = None ∧
    saveRejects env = None ∧
    deliver env r (emits [FindById (jobReminder job)] (setTimers (delete j) w)) =
      (Returned result,
       emits es (emits [FindById (jobReminder job)] (setTimers (delete j) w))) ∧
    reminders (dispatch j env w).2 =
      <[jobReminder job := settled env result r]> (reminders w).
Proof.
  intros Hk. unfold dispatch, fire.
  destruct (timers w !! j) as [job|] eqn:Hj; [|by left].
  rewrite callback_eq. simpl. unfold afterBody. simpl.
  destruct (findByIdRejects env) as [e|] eqn:Hf; [by left|].
  destruct (reminders w !! jobReminder job) as [r|] eqn:Hr; [|by left].
  destruct (decide (status r = pending)) as [Hs|]; [|by left].
  destruct (_processReminder_eq env r
              (emits [FindById (jobReminder job)] (setTimers (delete j) w)))
    as (result & es & Hd & _ & Heq).
  simpl in Heq. rewrite Heq. simpl.
  destruct (saveRejects env) as [e'|] eqn:Hsave; [by left|].
  right. exists job, r, result, es. split_and!; try done.
  simpl. by rewrite (Hk _ _ Hr).
Qed.

Lemma wellKeyed_step op w : wellKeyed (reminders w) → wellKeyed (reminders (step op w)).
Proof.
  intros Hk. destruct op; try (rewrite step_reminders; [done|congruence]).
  simpl. destruct (dispatch_reminders j env w Hk)
    as [->|(job & r & result & es & _ & Hr & _ & _ & _ & _ & ->)]; [done|].
  apply map_Forall_insert_2; [|done].
  rewrite settled_id. apply (Hk _ _ Hr).
Qed.

(** ** Whole steps: the status of a record *)

(** Calls that nothing interrupts. A whole operation of the service leaves a
    stored reminder as it is, or
    the operation is a dispatch, the reminder was pending, and its record
    becomes the sent record (status sent, sentAt the clock, error cleared)
    when the delivery result is a success and the failed record (status
    failed, error the description of the failure) otherwise. Through any
    sequence of whole operations a reminder that is sent or failed keeps
    its record. *)
Theorem status_transitions :
  (∀ op w id r,
     wellKeyed (reminders w) →
     reminders w !! id = Some r →
     let r' := reminders (step op w) !! id in
     r' = Some r ∨
     (status r = pending ∧
      ∃ j env result w1 es,
        op = Dispatch j env ∧
        emailTransporter w1 = emailTransporter w ∧
        deliver env r w1 = (Returned result, emits es w1) ∧
        r' = Some (if succeeded result then markSent (clock env) r
                   else markFailed (errorOf result) r)))
  ∧
  (∀ ops w id r,
     wellKeyed (reminders w) →
     reminders w !! id = Some r →
     status r ≠ pending →
     reminders (run (Core <$> ops) w) !! id = Some r)
  ∧
  (∀ now r,
     status (markSent now r) = sent ∧
     sentAt (markSent now r) = Some now ∧
     error (markSent now r) = None)
  ∧
  (∀ err r,
     status (markFailed err r) = failed ∧
     error (markFailed err r) = Some err).
Proof.
  assert (∀ op w id r,
     wellKeyed (reminders w) →
     reminders w !! id = Some r →
     let r' := reminders (step op w) !! id in
     r' = Some r ∨
     (status r = pending ∧
      ∃ j env result w1 es,
        op = Dispatch j env ∧
        emailTransporter w1 = emailTransporter w ∧
        deliver env r w1 = (Returned result, emits es w1) ∧
        r' = Some (if succeeded result then markSent (clock env) r
                   else markFailed (errorOf result) r))) as Hstep.
  { intros op w id r Hk Hr r'. subst r'.
    destruct op; try (left; rewrite step_reminders; [done|congruence]).
    simpl. destruct (dispatch_reminders j env w Hk)
      as [->|(job & r0 & result & es & _ & Hr0 & Hs & _ & _ & Hd & ->)]; [by left|].
    destruct (decide (jobReminder job = id)) as [<-|Hne].
    - right. rewrite Hr in Hr0. inversion Hr0; subst r0.
      split; [done|]. eexists j, env, result, _, es.
      split_and!; [done| |exact Hd|by rewrite lookup_insert_eq]. done.
    - left. by rewrite lookup_insert_ne. }
  split_and!; [exact Hstep| |done|done].
  intros ops. induction ops as [|op ops IH]; intros w id r Hk Hr Hs; [done|].
  simpl. apply IH; [by apply wellKeyed_step| |done].
  destruct (Hstep op w id r Hk Hr) as [H|[H _]]; done.
Qed.

(** ** C3 *)

(** C3. A dispatch starts by fetching the reminder of its job from the
    store. When the record is absent, or its status is not pending, the
    dispatch returns without sending anything and without saving anything:
    the store is as before, and the fetch is the only event when it
    resolves. *)
Theorem dispatch_guard j env w job :
  timers w !! j = Some job →
  let id := jobReminder job in
  let w' := (dispatch j env w).2 in
  (∃ rest, since w w' = FindById id :: rest) ∧
  ((reminders w !! id = None ∨
    ∃ r, reminders w !! id = Some r ∧ status r ≠ pending) →
   (dispatch j env w).1 = Returned tt ∧
   wire (since w w') = [] ∧
   saves (since w w') = [] ∧
   reminders w' = reminders w ∧
   (findByIdRejects env = None → since w w' = [FindById id])).
Proof.
  intros Hj id w'. subst w'. rewrite (dispatch_eq _ _ _ _ Hj). simpl. fold id.
  set (w1 := setTimers (delete j) w).
  assert (∀ es, since w (setScheduledJobs (delete id) (emits es w1)) = es) as Hsince.
  { intros es. apply (since_emits es w). }
  split.
  - unfold afterBody.
    destruct (findByIdRejects env) as [e|]; [rewrite Hsince; eauto|].
    destruct (reminders w1 !! id) as [r|]; [|rewrite Hsince; eauto].
    destruct (decide (status r = pending)); [|rewrite Hsince; eauto].
    destruct (_processReminder_eq env r (emits [FindById id] w1))
      as (result & es & _ & _ & ->). simpl.
    destruct (saveRejects env) as [e'|]; rewrite emits_emits.
    + rewrite Hsince. eauto.
    + change (since w _) with
        (since w (setScheduledJobs (delete id)
           (emits ([FindById id] ++ es ++ [Save (settled env result r)]) w1))).
      rewrite Hsince. eauto.
  - intros Hguard. unfold afterBody.
    destruct (findByIdRejects env) as [e|].
    { rewrite Hsince. by split_and!. }
    change (reminders w1) with (reminders w).
    destruct Hguard as [->|(r & -> & Hs)].
    + rewrite Hsince. by split_and!.
    + destruct (decide (status r = pending)); [done|].
      rewrite Hsince. by split_and!.
Qed.

(** ** C9 *)

(** C9. Whatever the store, the transport and the save answer, the callback
    of a fired job returns normally, the job is no longer pending and the
    table has no entry for its reminder. When the save of the new status is
    rejected, the rejection is reported on the console as the last event of
    the run and the store is as before. *)
Theorem dispatch_clears_entry j env w job :
  timers w !! j = Some job →
  let id := jobReminder job in
  let w' := (dispatch j env w).2 in
  (dispatch j env w).1 = Returned tt ∧
  scheduledJobs w' = delete id (scheduledJobs w) ∧
  scheduledJobs w' !! id = None ∧
  timers w' !! j = None ∧
  (∀ r e,
     reminders w !! id = Some r →
     status r = pending →
     findByIdRejects env = None →
     saveRejects env = Some e →
     reminders w' = reminders w ∧
     ∃ es doc,
       since w w' = es ++ [Save doc; Console (FailedToSaveStatus (describe e))]).
Proof.
  intros Hj id w'.
  destruct (dispatch_scheduler j env w job Hj) as (Ht & Htm & _).
  fold w' in Ht, Htm. fold id in Ht.
  split_and!.
  - by rewrite (dispatch_eq _ _ _ _ Hj).
  - done.
  - rewrite Ht. apply lookup_delete_eq.
  - rewrite Htm. apply lookup_delete_eq.
  - intros r e Hr Hs Hf Hsave. subst w'.
    rewrite (dispatch_eq _ _ _ _ Hj). simpl. fold id.
    set (w1 := setTimers (delete j) w).
    unfold afterBody. rewrite Hf.
    change (reminders w1) with (reminders w). rewrite Hr.
    destruct (decide (status r = pending)); [|done].
    destruct (_processReminder_eq env r (emits [FindById id] w1))
      as (result & es & _ & _ & ->). simpl.
    rewrite Hsave, emits_emits. split; [done|].
    exists ([FindById id] ++ es), (settled env result r).
    rewrite <- app_assoc. apply (since_emits _ w).
Qed.

(** ** C2 *)

(** C2. When the query of the recovery resolves, the routine returns
    normally and leaves the store as it was. A stored reminder that is
    pending with a date strictly after the clock of the query is passed to
    [scheduleReminder]: when that call is accepted the reminder holds a job
    allocated during the routine, firing at its date, and otherwise it has
    no entry. A stored reminder that is not pending, or whose date is
    absent or not after the clock of the query, keeps the table entry and
    the pending jobs it had: none when the table was empty. *)
Theorem restore_schedules_pending_future env w :
  Consistent w →
  wellKeyed (reminders w) →
  findRejects env = None →
  let now := queryClock env in
  let w' := (restorePendingReminders env w).2 in
  (restorePendingReminders env w).1 = Returned tt ∧
  reminders w' = reminders w ∧
  ∀ id r,
    reminders w !! id = Some r →
    (∀ d, status r = pending → dateTime r = Some d → (now < d)%Z →
          if accepted r (clockAt env id) (jobAt env id) then
            ∃ j, (nextJob w ≤ j)%nat ∧
                 scheduledJobs w' !! id = Some j ∧
                 timers w' !! j = Some (mkJob d id) ∧
                 liveJobs id w' = [j]
          else scheduledJobs w' !! id = None) ∧
    (status r ≠ pending ∨ dateTime r = None ∨
     (∃ d, dateTime r = Some d ∧ (d ≤ now)%Z) →
     scheduledJobs w' !! id = scheduledJobs w !! id ∧
     liveJobs id w' = liveJobs id w).
Proof.
  intros Hc Hk Hf now w'. subst w'.
  rewrite restorePendingReminders_eq, Hf. simpl. fold now.
  destruct (restore_loop env (found now (reminders w)) (emits [Find now] w))
    as (w' & Hrun & Hc' & _ & Hrem & _ & Ht & _ & Hin).
  { by apply (Consistent_same w). }
  { by apply found_NoDup. }
  rewrite Hrun. simpl. split_and!; try done.
  intros id r Hr. pose proof (Hk _ _ Hr) as Hid. simpl in Hid. split.
  - intros d Hs Hd Hlt.
    assert (r ∈ found now (reminders w)) as Hfound.
    { apply found_elem; [done|]. rewrite Hid. split; [done|].
      apply pendingAfter_true. eauto. }
    specialize (Hin r Hfound). simpl in Hin. rewrite Hid in Hin.
    destruct (accepted r (clockAt env id) (jobAt env id)); [|done].
    destruct Hin as (j & d' & Hle & Hd' & Hj & Htm).
    assert (d' = d) as -> by congruence.
    exists j. split_and!; try done.
    rewrite (liveJobs_Consistent _ _ Hc'). by rewrite Hj.
  - intros Hno.
    assert (id ∉ _id <$> found now (reminders w)) as Hnot.
    { intros (r' & Hid' & Hr')%list_elem_of_fmap.
      apply found_elem in Hr' as [Hr' Hp]; [|done].
      rewrite <- Hid' in Hr'. rewrite Hr in Hr'. inversion Hr'; subst r'.
      apply pendingAfter_false in Hno. congruence. }
    assert (scheduledJobs w' !! id = scheduledJobs w !! id) as Heq by by apply Ht.
    split; [done|].
    rewrite (liveJobs_Consistent _ _ Hc'), (liveJobs_Consistent _ _ Hc).
    by rewrite Heq.
Qed.

(** ** C4 *)

(** C4. With a configured transport, [sendEmailNotification] resolves
    after at most three sends. A send that succeeds ends the loop with a
    success; a failed first send is followed by a sleep of 700 ms and a
    failed second send by a sleep of 1400 ms; when the three sends fail the
    result is a failure carrying the description of the third error. *)
Theorem retry_envelope transport email title w :
  emailTransporter w = true →
  let result := (sendEmailNotification transport email title w).1 in
  let w' := (sendEmailNotification transport email title w).2 in
  let sent := SendMail email ("Reminder: " ++ title)%string in
  match transport 1%nat, transport 2%nat, transport 3%nat with
  | None, _, _ =>
      result = Returned (Some Success) ∧
      wire (since w w') = [sent]
  | Some _, None, _ =>
      result = Returned (Some Success) ∧
      wire (since w w') = [sent; Sleep 700; sent]
  | Some _, Some _, None =>
      result = Returned (Some Success) ∧
      wire (since w w') = [sent; Sleep 700; sent; Sleep 1400; sent]
  | Some _, Some _, Some e3 =>
      result = Returned (Some (Failure (describe e3))) ∧
      wire (since w w') = [sent; Sleep 700; sent; Sleep 1400; sent]
  end.
Proof.
  intros Hconf. unfold sendEmailNotification. rewrite Hconf. simpl.
  rewrite sendLoop_0.
  destruct (transport 1%nat), (transport 2%nat), (transport 3%nat);
    simpl; rewrite since_emits; done.
Qed.

(** ** C8 *)

(** C8. When the constructor finds no user or no password (empty once its
    white space is removed), the transporter is not built, and in every
    world reached afterwards a send returns the failure "Transporter not
    configured" at once: the only event is the console warning, nothing is
    sent and nothing sleeps. *)
Theorem unconfigured_transport_fails_fast
    user pass store acts transport email title :
  default "" user = "" ∨ removeSpaces (default "" pass) = "" →
  let w := run acts (constructor user pass store) in
  let w' := (sendEmailNotification transport email title w).2 in
  emailTransporter w = false ∧
  (sendEmailNotification transport email title w).1 =
    Returned (Some (Failure "Transporter not configured")) ∧
  since w w' = [Console (TransporterNotConfigured email)] ∧
  wire (since w w') = [].
Proof.
  intros Hmissing w w'.
  assert (emailTransporter w = false) as Hoff.
  { unfold w. rewrite run_emailTransporter. simpl.
    apply negb_false_iff, orb_true_iff.
    destruct Hmissing as [H|H]; [left|right]; by apply bool_decide_eq_true. }
  subst w'. unfold sendEmailNotification. rewrite Hoff. simpl.
  unfold bind, exec, ret. rewrite emit_emits, since_emits. done.
Qed.

(** ** C6 *)

(** C6. For a reminder whose date is at or before the clock,
    [scheduleReminder] returns false, the table has no entry for the id
    afterwards, and no job is allocated or added to the pending ones. *)
Theorem past_reminder_rejected reminder now answer w d :
  dateTime reminder = Some d →
  (d ≤ now)%Z →
  let w' := (scheduleReminder reminder now answer w).2 in
  (scheduleReminder reminder now answer w).1 = Returned false ∧
  scheduledJobs w' !! _id reminder = None ∧
  timers w' ⊆ timers w ∧
  nextJob w' = nextJob w ∧
  (Consistent w → liveJobs (_id reminder) w' = []).
Proof.
  intros Hd Hle w'.
  pose proof (Consistent_scheduleReminder reminder now answer w) as Hc'.
  fold w' in Hc'. subst w'.
  rewrite scheduleReminder_eq, Hd in *.
  destruct (decide (d ≤ now)%Z); [|lia]. simpl in *.
  destruct (cancelExisting_frame (_id reminder) w) as (_ & Hn & _ & _ & _ & Htm).
  pose proof (cancelExisting_lookup (_id reminder) w) as Hnone.
  split_and!; try done.
  - rewrite Htm. destruct (scheduledJobs w !! _id reminder); [|done].
    apply delete_subseteq.
  - intros Hc. rewrite (liveJobs_Consistent _ _ (Hc' Hc)). simpl. by rewrite Hnone.
Qed.

(** ** C10 *)

(** C10. For a reminder whose date is not a valid instant,
    [scheduleReminder] returns false (it does not throw), reports the
    invalid date, allocates no job, adds none to the pending ones and
    leaves no entry for the id. *)
Theorem invalid_date_rejected reminder now answer w :
  dateTime reminder = None →
  let w' := (scheduleReminder reminder now answer w).2 in
  (scheduleReminder reminder now answer w).1 = Returned false ∧
  since w w' = [Console (InvalidDateTime (_id reminder))] ∧
  scheduledJobs w' !! _id reminder = None ∧
  timers w' ⊆ timers w ∧
  nextJob w' = nextJob w.
Proof.
  intros Hd w'. subst w'. rewrite scheduleReminder_eq, Hd. simpl.
  destruct (cancelExisting_frame (_id reminder) w) as (_ & Hn & _ & He & _ & Htm).
  pose proof (cancelExisting_lookup (_id reminder) w) as Hnone.
  split_and!; try done.
  - unfold since. simpl. rewrite He. by rewrite drop_app_length.
  - rewrite Htm. destruct (scheduledJobs w !! _id reminder); [|done].
    apply delete_subseteq.
Qed.

(** ** C7 *)

(** C7, as the code has it. When [scheduleReminder] rejects a reminder
    whose date is at or before the clock, the entries of the other ids are
    as before the call and no job is allocated, but the entry of the id
    itself is removed and the job it held is cancelled: the block that
    cancels an existing job runs before the date is looked at. *)
Theorem rejection_cancels_existing reminder now answer w d :
  dateTime reminder = Some d →
  (d ≤ now)%Z →
  let id := _id reminder in
  let w' := (scheduleReminder reminder now answer w).2 in
  (scheduleReminder reminder now answer w).1 = Returned false ∧
  scheduledJobs w' = delete id (scheduledJobs w) ∧
  (∀ id', id' ≠ id → scheduledJobs w' !! id' = scheduledJobs w !! id') ∧
  timers w' = match scheduledJobs w !! id with
              | Some existing => delete existing (timers w)
              | None => timers w
              end ∧
  nextJob w' = nextJob w ∧
  reminders w' = reminders w.
Proof.
  intros Hd Hle id w'. subst id w'.
  rewrite scheduleReminder_eq, Hd.
  destruct (decide (d ≤ now)%Z); [|lia]. simpl.
  destruct (cancelExisting_frame (_id reminder) w) as (_ & Hn & Hr & _ & Ht & Htm).
  split_and!; try done.
  intros id' Hne. rewrite Ht. by apply lookup_delete_ne.
Qed.

(** ** The properties at work *)

Lemma one_live_job_per_reminder_witness :
  let w := run [Core (Schedule (sample "r1" (Some 5000) pending) 1000 JobCreated)]
               (constructor (Some "clinic@example.com") (Some "abcd efgh ijkl mnop")
                            {[ "r1" := sample "r1" (Some 5000) pending ]}) in
  let w' := (scheduleReminder (sample "r1" (Some 9000) pending) 2000 JobCreated w).2 in
  timers w' !! 0%nat = None ∧
  ∃ j, j ≠ 0%nat ∧
       scheduledJobs w' !! "r1" = Some j ∧
       liveJobs "r1" w' = [j].
Proof.
  apply (proj1 (proj2 one_live_job_per_reminder)
           (Some "clinic@example.com") (Some "abcd efgh ijkl mnop")
           {[ "r1" := sample "r1" (Some 5000) pending ]}
           [Core (Schedule (sample "r1" (Some 5000) pending) 1000 JobCreated)]
           (sample "r1" (Some 9000) pending) 2000 JobCreated 0%nat).
  - reflexivity.
  - reflexivity.
Defined.

Lemma restore_schedules_pending_future_witness :
  let w := startup restartStore in
  let w' := (restorePendingReminders restartAnswers w).2 in
  (∃ j, scheduledJobs w' !! "A" = Some j ∧ timers w' !! j = Some (mkJob 9000 "A")) ∧
  scheduledJobs w' !! "B" = None ∧
  scheduledJobs w' !! "C" = None ∧
  reminders w' = reminders w.
Proof.
  intros w w'.
  destruct (restore_schedules_pending_future restartAnswers w) as (_ & Hr & H).
  - apply Consistent_constructor.
  - unfold wellKeyed. compute_done.
  - reflexivity.
  - fold w' in Hr, H. split_and!.
    + destruct (proj1 (H "A" (sample "A" (Some 9000) pending) eq_refl) 9000)
        as (j & _ & Hj & Htm & _); [reflexivity|reflexivity|simpl; lia|].
      exists j. split; assumption.
    + destruct (proj2 (H "B" (sample "B" (Some 100) pending) eq_refl)) as [-> _].
      * right. right. exists 100. split; [reflexivity|simpl; lia].
      * reflexivity.
    + destruct (proj2 (H "C" (sample "C" (Some 9000) sent) eq_refl)) as [-> _].
      * left. discriminate.
      * reflexivity.
    + exact Hr.
Defined.

Lemma dispatch_guard_witness :
  let w := run [Api ∅] oneScheduled in
  let w' := (dispatch 0 resolves w).2 in
  (dispatch 0 resolves w).1 = Returned tt ∧
  wire (since w w') = [] ∧
  saves (since w w') = [] ∧
  reminders w' = reminders w ∧
  since w w' = [FindById "r1"].
Proof.
  intros w w'.
  destruct (dispatch_guard 0 resolves w (mkJob 5000 "r1") eq_refl) as [_ H].
  destruct H as (Hout & Hwire & Hsaves & Hstore & Hsince).
  - left. reflexivity.
  - split_and!; try assumption. apply Hsince. reflexivity.
Defined.

Lemma retry_envelope_witness :
  let w := startup ∅ in
  let out := sendEmailNotification alwaysFails "a@b.com" "Eye drops" w in
  let sent := SendMail "a@b.com" "Reminder: Eye drops" in
  out.1 = Returned (Some (Failure "ECONNREFUSED")) ∧
  wire (since w out.2) = [sent; Sleep 700; sent; Sleep 1400; sent].
Proof.
  exact (retry_envelope alwaysFails "a@b.com" "Eye drops" (startup ∅) eq_refl).
Defined.

Lemma status_transitions_witness :
  let r := sample "r1" (Some 5000) pending in
  let r' := reminders (step (Dispatch 0 resolves) oneScheduled) !! "r1" in
  r' = Some r ∨
  (status r = pending ∧
   ∃ j env result w1 es,
     Dispatch 0 resolves = Dispatch j env ∧
     emailTransporter w1 = emailTransporter oneScheduled ∧
     deliver env r w1 = (Returned result, emits es w1) ∧
     r' = Some (if succeeded result then markSent (clock env) r
                else markFailed (errorOf result) r)).
Proof.
  apply (proj1 status_transitions (Dispatch 0 resolves) oneScheduled "r1").
  - unfold wellKeyed. compute_done.
  - reflexivity.
Defined.

Lemma past_reminder_rejected_witness :
  let stale := sample "r1" (Some 500) pending in
  let w' := (scheduleReminder stale 1000 JobCreated oneScheduled).2 in
  (scheduleReminder stale 1000 JobCreated oneScheduled).1 = Returned false ∧
  scheduledJobs w' !! "r1" = None ∧
  timers w' ⊆ timers oneScheduled ∧
  nextJob w' = nextJob oneScheduled ∧
  (Consistent oneScheduled → liveJobs "r1" w' = []).
Proof.
  apply (past_reminder_rejected (sample "r1" (Some 500) pending) 1000 JobCreated
           oneScheduled 500).
  - reflexivity.
  - lia.
Defined.

Lemma invalid_date_rejected_witness :
  let broken := sample "r2" None pending in
  let w' := (scheduleReminder broken 1000 JobCreated oneScheduled).2 in
  (scheduleReminder broken 1000 JobCreated oneScheduled).1 = Returned false ∧
  since oneScheduled w' = [Console (InvalidDateTime "r2")] ∧
  scheduledJobs w' !! "r2" = None ∧
  timers w' ⊆ timers oneScheduled ∧
  nextJob w' = nextJob oneScheduled.
Proof.
  apply (invalid_date_rejected (sample "r2" None pending) 1000 JobCreated oneScheduled).
  reflexivity.
Defined.

Lemma unconfigured_transport_fails_fast_witness :
  let w := run [Core (Schedule (sample "r1" (Some 5000) pending) 1000 JobCreated)]
               (constructor (Some "clinic@example.com") (Some "  ") ∅) in
  let w' := (sendEmailNotification (λ _, None) "a@b.com" "Eye drops" w).2 in
  emailTransporter w = false ∧
  (sendEmailNotification (λ _, None) "a@b.com" "Eye drops" w).1 =
    Returned (Some (Failure "Transporter not configured")) ∧
  since w w' = [Console (TransporterNotConfigured "a@b.com")] ∧
  wire (since w w') = [].
Proof.
  apply (unconfigured_transport_fails_fast
           (Some "clinic@example.com") (Some "  ") ∅
           [Core (Schedule (sample "r1" (Some 5000) pending) 1000 JobCreated)]
           (λ _, None) "a@b.com" "Eye drops").
  right. reflexivity.
Defined.

Lemma dispatch_clears_entry_witness :
  let env := mkAnswers 5000 None alwaysFails (Some refused) in
  let w' := (dispatch 0 env oneScheduled).2 in
  (dispatch 0 env oneScheduled).1 = Returned tt ∧
  scheduledJobs w' !! "r1" = None ∧
  timers w' !! 0%nat = None ∧
  reminders w' = reminders oneScheduled ∧
  ∃ es doc,
    since oneScheduled w' =
    es ++ [Save doc; Console (FailedToSaveStatus (describe refused))].
Proof.
  intros env w'.
  destruct (dispatch_clears_entry 0 env oneScheduled (mkJob 5000 "r1") eq_refl)
    as (Hout & _ & Hnone & Hgone & Hsave).
  destruct (Hsave (sample "r1" (Some 5000) pending) refused)
    as [Hstore Hlog]; try reflexivity.
  split_and!; assumption.
Defined.

Lemma rejection_cancels_existing_witness :
  let stale := sample "r1" (Some 500) pending in
  let w' := (scheduleReminder stale 2000 JobCreated oneScheduled).2 in
  (scheduleReminder stale 2000 JobCreated oneScheduled).1 = Returned false ∧
  scheduledJobs w' = delete "r1" (scheduledJobs oneScheduled) ∧
  (∀ id', id' ≠ "r1" → scheduledJobs w' !! id' = scheduledJobs oneScheduled !! id') ∧
  timers w' = match scheduledJobs oneScheduled !! "r1" with
              | Some existing => delete existing (timers oneScheduled)
              | None => timers oneScheduled
              end ∧
  nextJob w' = nextJob oneScheduled ∧
  reminders w' = reminders oneScheduled.
Proof.
  apply (rejection_cancels_existing (sample "r1" (Some 500) pending) 2000 JobCreated
           oneScheduled 500).
  - reflexivity.
  - lia.
Defined.

(** C7 as stated fails: reminder r1 holds the pending job 0; a schedule call
    for r1 with a date in the past is rejected, and afterwards the entry and
    the job are gone, so the table is not as it was before the call. *)
Lemma rejection_not_atomic :
  let stale := sample "r1" (Some 500) pending in
  let w' := (scheduleReminder stale 2000 JobCreated oneScheduled).2 in
  dateTime stale = Some 500 ∧
  (500 ≤ 2000)%Z ∧
  scheduledJobs oneScheduled !! "r1" = Some 0%nat ∧
  timers oneScheduled !! 0%nat = Some (mkJob 5000 "r1") ∧
  (scheduleReminder stale 2000 JobCreated oneScheduled).1 = Returned false ∧
  scheduledJobs w' !! "r1" = None ∧
  timers w' !! 0%nat = None ∧
  scheduledJobs w' ≠ scheduledJobs oneScheduled.
Proof.
  split_and!; try reflexivity; [lia|].
  intros Heq. apply (f_equal (λ m, m !! "r1")) in Heq. discriminate Heq.
Qed.

(** ** The scenarios of the specification *)

(** A reminder due later, a transport that succeeds at once: after the
    dispatch the status is sent, sentAt is set, the table has no entry. *)
Example scenario_sent :
  let w' := (dispatch 0 resolves oneScheduled).2 in
  reminders w' !! "r1" = Some (markSent 5000 (sample "r1" (Some 5000) pending)) ∧
  scheduledJobs w' !! "r1" = None ∧
  wire (effects w') = [SendMail "a@b.com" "Reminder: Eye drops"].
Proof. split_and!; reflexivity. Qed.

(** The same with a transport that fails three times: the status is failed
    and the error is the one of the last attempt. *)
Example scenario_failed :
  let w' := (dispatch 0 (mkAnswers 5000 None alwaysFails None) oneScheduled).2 in
  reminders w' !! "r1" =
    Some (markFailed "ECONNREFUSED" (sample "r1" (Some 5000) pending)) ∧
  scheduledJobs w' !! "r1" = None ∧
  wire (effects w') =
    [SendMail "a@b.com" "Reminder: Eye drops"; Sleep 700;
     SendMail "a@b.com" "Reminder: Eye drops"; Sleep 1400;
     SendMail "a@b.com" "Reminder: Eye drops"].
Proof. split_and!; reflexivity. Qed.

(** Cancelling before the job fires: the job never runs, so a dispatch of
    it changes nothing. *)
Example scenario_cancelled :
  let w := (cancelScheduledReminder "r1" oneScheduled).2 in
  (cancelScheduledReminder "r1" oneScheduled).1 = Returned true ∧
  scheduledJobs w !! "r1" = None ∧
  dispatch 0 resolves w = (Returned tt, w).
Proof. split_and!; reflexivity. Qed.

(** * Callbacks in flight *)

(** ** C1 and C5 *)

(** The parts of a callback, run one after the other with nothing in
    between, are the whole dispatch. *)
Lemma dispatch_stages j env w :
  drain 3 env (begin j w) = (dispatch j env w).2.
Proof.
  unfold dispatch, begin, fire.
  destruct (timers w !! j) as [job|]; [|done].
  set (id := jobReminder job). set (w0 := setTimers (delete j) w).
  unfold callback, tryFinally, tryCatch, findById, bind, exec, await, ret.
  cbn [drain fst snd advance].
  destruct (findByIdRejects env); [done|].
  change (reminders (emit (FindById id) w0)) with (reminders w).
  destruct (reminders w !! id) as [existing|]; [|done].
  destruct (decide (status existing = pending)); [|done].
  cbn [drain fst snd advance].
  unfold _processReminder, tryCatch, save, bind, exec, await, settled.
  destruct (deliver env existing (emit (FindById id) w0)) as [[result|e1] w1]; [|done].
  cbn [drain fst snd advance].
  by destruct (saveRejects env).
Qed.

(** Moves that are whole calls are the steps of the service. *)
Lemma play_calls ops w : (play (Call <$> ops) w).1 = run (Core <$> ops) w.
Proof.
  unfold play, run. generalize (∅ : gmap nat Flight). revert w.
  induction ops as [|op ops IH]; intros w flights; [done|]. simpl. apply IH.
Qed.

(** C1. The code at the failing input. Job 0 of reminder r1 fires and its
    callback is suspended at [await Reminder.findById]. Meanwhile r1 is
    scheduled again and gets job 1, the only pending job of r1. The callback
    of job 0 then runs to its end, and its [finally] block deletes the entry
    of r1, which by then is the entry of job 1: job 1 stays pending without
    an entry. The next schedule call for r1 finds no entry to cancel and
    registers job 2, so that r1 has two pending jobs, and both fire. The
    claim says that a reminder id has at most one live job at any time and
    that a schedule call for an id cancels the job the id holds. *)
Theorem reschedule_in_flight_leaves_two_jobs :
  let l1 := play [Fires 0] oneScheduled in
  let l2 := move l1 (Call (Schedule (sample "r1" (Some 9000) pending) 5001 JobCreated)) in
  let l3 := foldl move l2 [Resumes 0 resolves; Resumes 0 resolves; Resumes 0 resolves] in
  let l4 := move l3 (Call (Schedule (sample "r1" (Some 9500) pending) 5002 JobCreated)) in
  let l5 := foldl move l4 [Fires 1; Fires 2] in
  liveJobs "r1" oneScheduled = [0%nat] ∧
  l1.2 = {[ 0%nat := AtFindById "r1" ]} ∧
  (scheduledJobs l2.1 !! "r1" = Some 1%nat ∧ liveJobs "r1" l2.1 = [1%nat]) ∧
  (l3.2 = ∅ ∧ scheduledJobs l3.1 !! "r1" = None ∧ liveJobs "r1" l3.1 = [1%nat]) ∧
  (scheduledJobs l4.1 !! "r1" = Some 2%nat ∧ liveJobs "r1" l4.1 = [2%nat; 1%nat]) ∧
  l5.2 = {[ 1%nat := AtFindById "r1"; 2%nat := AtFindById "r1" ]}.
Proof. split_and!; vm_compute; reflexivity. Qed.

(** C5. The code at the failing input. Job 0 of reminder r1 fires, fetches the
    pending record and starts to send. Meanwhile r1 is scheduled again for
    two milliseconds later; job 1 fires and fetches the record, which is
    still pending. The send of job 0 succeeds and its callback saves the
    record as sent. The sends of job 1 fail three times, and its callback
    saves the document it fetched before as failed: the stored status goes
    from sent to failed. The claim says that a reminder that is sent is
    never moved to another status by the core. (Only the status is looked
    at: it is what both documents write.) *)
Theorem overlapping_dispatches_overwrite_sent :
  let r := sample "r1" (Some 5000) pending in
  let down := mkAnswers 5003 None alwaysFails None in
  let l1 := play [Fires 0; Resumes 0 resolves;
                  Call (Schedule (sample "r1" (Some 5002) pending) 5001 JobCreated);
                  Fires 1; Resumes 1 down] oneScheduled in
  let l2 := foldl move l1 [Resumes 0 resolves; Resumes 0 resolves] in
  let l3 := foldl move l2 [Resumes 1 down; Resumes 1 down] in
  l1.2 = {[ 0%nat := AtSend "r1" r; 1%nat := AtSend "r1" r ]} ∧
  status <$> reminders l1.1 !! "r1" = Some pending ∧
  (l2.2 = {[ 1%nat := AtSend "r1" r ]} ∧
   status <$> reminders l2.1 !! "r1" = Some sent) ∧
  (l3.2 = ∅ ∧
   status <$> reminders l3.1 !! "r1" = Some failed) ∧
  wire (effects l3.1) =
    [SendMail "a@b.com" "Reminder: Eye drops";
     SendMail "a@b.com" "Reminder: Eye drops"; Sleep 700;
     SendMail "a@b.com" "Reminder: Eye drops"; Sleep 1400;
     SendMail "a@b.com" "Reminder: Eye drops"].
Proof. split_and!; vm_compute; reflexivity. Qed.

(** * Further properties of the service *)

(** ** Cancelling *)

(** X1. Cancelling the reminder [reminderId] answers whether it had an entry,
    removes that entry and leaves the reminder without a pending job; the
    pending jobs of the other reminders, the store and the effects are as
    before. *)
Theorem cancel_removes_entry reminderId w :
  Consistent w →
  let out := cancelScheduledReminder reminderId w in
  out.1 = Returned (bool_decide (is_Some (scheduledJobs w !! reminderId))) ∧
  scheduledJobs out.2 = delete reminderId (scheduledJobs w) ∧
  liveJobs reminderId out.2 = [] ∧
  (∀ id, id ≠ reminderId → liveJobs id out.2 = liveJobs id w) ∧
  reminders out.2 = reminders w ∧
  effects out.2 = effects w.
Proof.
  intros Hc out.
  pose proof (Consistent_cancelScheduledReminder reminderId w Hc) as Hc'.
  fold out in Hc'.
  assert (scheduledJobs out.2 = delete reminderId (scheduledJobs w)) as Ht.
  { unfold out, cancelScheduledReminder.
    destruct (scheduledJobs w !! reminderId) as [j|] eqn:Hid; simpl; [done|].
    symmetry. by apply delete_id. }
  split_and!.
  - unfold out, cancelScheduledReminder.
    by destruct (scheduledJobs w !! reminderId) as [j|] eqn:Hid.
  - done.
  - rewrite (liveJobs_Consistent _ _ Hc'), Ht. by rewrite lookup_delete_eq.
  - intros id Hne.
    rewrite (liveJobs_Consistent _ _ Hc'), (liveJobs_Consistent _ _ Hc), Ht.
    by rewrite lookup_delete_ne.
  - unfold out, cancelScheduledReminder.
    by destruct (scheduledJobs w !! reminderId).
  - unfold out, cancelScheduledReminder.
    by destruct (scheduledJobs w !! reminderId).
Qed.

Lemma cancel_removes_entry_witness :
  let out := cancelScheduledReminder "r1" oneScheduled in
  out.1 = Returned true ∧
  scheduledJobs out.2 = delete "r1" (scheduledJobs oneScheduled) ∧
  liveJobs "r1" out.2 = [] ∧
  (∀ id, id ≠ "r1" → liveJobs id out.2 = liveJobs id oneScheduled) ∧
  reminders out.2 = reminders oneScheduled ∧
  effects out.2 = effects oneScheduled.
Proof.
  apply (cancel_removes_entry "r1" oneScheduled).
  apply Consistent_run, Consistent_constructor.
Defined.

(** X2. Cancelling a reminder that has no entry changes nothing and answers
    false; so does cancelling a second time. *)
Theorem cancel_idempotent :
  (∀ reminderId w,
     scheduledJobs w !! reminderId = None →
     cancelScheduledReminder reminderId w = (Returned false, w)) ∧
  (∀ reminderId w,
     let w' := (cancelScheduledReminder reminderId w).2 in
     cancelScheduledReminder reminderId w' = (Returned false, w')).
Proof.
  assert (∀ reminderId w,
     scheduledJobs w !! reminderId = None →
     cancelScheduledReminder reminderId w = (Returned false, w)) as Habsent.
  { intros reminderId w Hnone. unfold cancelScheduledReminder. by rewrite Hnone. }
  split; [done|].
  intros reminderId w w'. apply Habsent. unfold w', cancelScheduledReminder.
  destruct (scheduledJobs w !! reminderId) as [j|] eqn:Hid; [|done].
  simpl. apply lookup_delete_eq.
Qed.

Lemma cancel_idempotent_witness :
  let w' := (cancelScheduledReminder "r1" oneScheduled).2 in
  cancelScheduledReminder "r1" w' = (Returned false, w').
Proof. exact (proj2 cancel_idempotent "r1" oneScheduled). Defined.

(** ** Jobs never come back *)










Lemma dispatch_not_pending j env w :
  timers w !! j = None → dispatch j env w = (Returned tt, w).
Proof. intros Hnone. unfold dispatch, fire. by rewrite Hnone. Qed.





(** ** Shutdown *)

Lemma cancelAllScheduled_empty w :
  Consistent w →
  let w' := (cancelAllScheduled w).2 in
  scheduledJobs w' = ∅ ∧
  timers w' = ∅ ∧
  reminders w' = reminders w ∧
  effects w' = effects w.
Proof.
  intros Hc. unfold cancelAllScheduled. simpl.
  destruct (cancelAll_loop (map_to_list (scheduledJobs w)) w)
    as (_ & _ & _ & Hr & He & Hj).
  split_and!; try done.
  apply map_empty. intros j. rewrite Hj. destruct (decide _) as [|Hnin]; [done|].
  destruct (timers w !! j) as [job|] eqn:Hjob; [|done].
  exfalso. apply Hnin. apply list_elem_of_fmap.
  exists (jobReminder job, j). split; [done|].
  apply elem_of_map_to_list. by apply (live_table w Hc).
Qed.

(** X5. After [cancelAllScheduled] the table is empty and no job is pending, so
    nothing fires any more; the store and the effects are as before. *)
Theorem cancelAll_leaves_nothing_pending w :
  Consistent w →
  let out := cancelAllScheduled w in
  out.1 = Returned tt ∧
  scheduledJobs out.2 = ∅ ∧
  timers out.2 = ∅ ∧
  reminders out.2 = reminders w ∧
  effects out.2 = effects w ∧
  ∀ j env, dispatch j env out.2 = (Returned tt, out.2).
Proof.
  intros Hc out.
  destruct (cancelAllScheduled_empty w Hc) as (Ht & Hj & Hr & He).
  fold out in Ht, Hj, Hr, He.
  split_and!; try done.
  intros j env. apply dispatch_not_pending. rewrite Hj. apply lookup_empty.
Qed.

Lemma cancelAll_leaves_nothing_pending_witness :
  let out := cancelAllScheduled (run [Core (Restore restartAnswers)] oneScheduled) in
  out.1 = Returned tt ∧
  scheduledJobs out.2 = ∅ ∧
  timers out.2 = ∅ ∧
  reminders out.2 = reminders (run [Core (Restore restartAnswers)] oneScheduled) ∧
  effects out.2 = effects (run [Core (Restore restartAnswers)] oneScheduled) ∧
  ∀ j env, dispatch j env out.2 = (Returned tt, out.2).
Proof.
  apply (cancelAll_leaves_nothing_pending
           (run [Core (Restore restartAnswers)] oneScheduled)).
  apply Consistent_run, Consistent_run, Consistent_constructor.
Defined.

(** ** What a dispatch does with a pending reminder *)

Lemma emits_inj es es' w : emits es w = emits es' w → es = es'.
Proof.
  intros H. apply (f_equal effects) in H. simpl in H. by apply app_inv_head in H.
Qed.

Lemma emits_fixed es w : w = emits es w → es = [].
Proof. intros H. rewrite <- (emits_nil w) in H at 1. symmetry. by apply emits_inj in H. Qed.

Section PendingDispatch.

(** Job [j] is pending for the reminder [r], which is stored and pending;
    the fetch and the save resolve. *)
Variables (j : nat) (job : Job) (env : Answers) (w : World) (r : Reminder).
Hypothesis Hjob : timers w !! j = Some job.
Hypothesis Hstored : reminders w !! jobReminder job = Some r.
Hypothesis Hkey : _id r = jobReminder job.
Hypothesis Hpending : status r = pending.
Hypothesis Hfetch : findByIdRejects env = None.
Hypothesis Hsave : saveRejects env = None.

Let id := jobReminder job.
Let w1 := emits [FindById id] (setTimers (delete j) w).
Let w' := (dispatch j env w).2.

Lemma dispatch_pending :
  ∃ result es,
    deliver env r w1 = (Returned result, emits es w1) ∧
    reminders w' = <[id := settled env result r]> (reminders w) ∧
    since w w' = FindById id :: es ++ [Save (settled env result r)].
Proof using Hjob Hstored Hkey Hpending Hfetch Hsave.
  subst w'. rewrite (dispatch_eq _ _ _ _ Hjob). simpl. fold id.
  unfold afterBody. rewrite Hfetch.
  change (reminders (setTimers (delete j) w)) with (reminders w).
  fold id in Hstored. rewrite Hstored.
  destruct (decide (status r = pending)); [|done].
  fold w1.
  destruct (_processReminder_eq env r w1) as (result & es & Hd & _ & Heq).
  simpl in Heq. rewrite Heq, Hsave. simpl.
  exists result, es. split_and!; [done|by rewrite Hkey|].
  unfold w1. rewrite emits_emits.
  apply (since_emits ([FindById id] ++ es ++ [Save (settled env result r)]) w).
Qed.

(** X6. A reminder whose type is not email is settled as failed without any
    traffic with the transport: "SMS not implemented" for an sms reminder,
    "Unknown error" for any other type. *)
Theorem dispatch_without_email :
  notificationType r ≠ "email" →
  reminders w' !! id =
    Some (markFailed (if decide (notificationType r = "sms")
                      then "SMS not implemented" else "Unknown error") r) ∧
  wire (since w w') = [] ∧
  saves (since w w') =
    [markFailed (if decide (notificationType r = "sms")
                 then "SMS not implemented" else "Unknown error") r].
Proof using Hjob Hstored Hkey Hpending Hfetch Hsave.
  intros Htype.
  destruct dispatch_pending as (result & es & Hd & -> & ->).
  unfold deliver in Hd.
  destruct (decide (notificationType r = "email")); [done|].
  rewrite lookup_insert_eq.
  destruct (decide (notificationType r = "sms"));
    unfold ret in Hd; apply pair_equal_spec in Hd as [Hres Hes];
    apply emits_fixed in Hes; inversion Hres; subst; done.
Qed.

(** X7. An email reminder dispatched by a service without transporter is
    settled as failed with "Transporter not configured"; nothing is
    sent. *)
Theorem dispatch_unconfigured :
  notificationType r = "email" →
  emailTransporter w = false →
  reminders w' !! id = Some (markFailed "Transporter not configured" r) ∧
  wire (since w w') = [].
Proof using Hjob Hstored Hkey Hpending Hfetch Hsave.
  intros Htype Hoff.
  destruct dispatch_pending as (result & es & Hd & -> & ->).
  unfold deliver in Hd.
  destruct (decide (notificationType r = "email")); [|done].
  unfold sendEmailNotification in Hd.
  change (emailTransporter w1) with (emailTransporter w) in Hd.
  rewrite Hoff in Hd. simpl in Hd.
  unfold bind, exec, ret in Hd. rewrite emit_emits in Hd.
  apply pair_equal_spec in Hd as [Hres Hes].
  apply emits_inj in Hes. inversion Hres. subst.
  rewrite lookup_insert_eq. done.
Qed.

(** X8. An email reminder dispatched by a configured service is settled as
    sent when one of the three attempts succeeds, and as failed with the
    description of the third error (or "Unknown error" when that is
    empty) when all three fail. At most three mails are sent, to the
    contact of the reminder. *)
Theorem dispatch_email_outcome :
  notificationType r = "email" →
  emailTransporter w = true →
  let sent := SendMail (contactInfo r) ("Reminder: " ++ title r)%string in
  match transport env 1%nat, transport env 2%nat, transport env 3%nat with
  | None, _, _ =>
      reminders w' !! id = Some (markSent (clock env) r) ∧
      wire (since w w') = [sent]
  | Some _, None, _ =>
      reminders w' !! id = Some (markSent (clock env) r) ∧
      wire (since w w') = [sent; Sleep 700; sent]
  | Some _, Some _, None =>
      reminders w' !! id = Some (markSent (clock env) r) ∧
      wire (since w w') = [sent; Sleep 700; sent; Sleep 1400; sent]
  | Some _, Some _, Some e3 =>
      reminders w' !! id =
        Some (markFailed (if decide (describe e3 = "") then "Unknown error"
                          else describe e3) r) ∧
      wire (since w w') = [sent; Sleep 700; sent; Sleep 1400; sent]
  end.
Proof using Hjob Hstored Hkey Hpending Hfetch Hsave.
  intros Htype Hon sent'.
  destruct dispatch_pending as (result & es & Hd & -> & ->).
  unfold deliver in Hd.
  destruct (decide (notificationType r = "email")); [|done].
  unfold sendEmailNotification in Hd.
  change (emailTransporter w1) with (emailTransporter w) in Hd.
  rewrite Hon in Hd. simpl in Hd. rewrite sendLoop_0 in Hd.
  rewrite lookup_insert_eq.
  destruct (transport env 1%nat), (transport env 2%nat), (transport env 3%nat);
    apply pair_equal_spec in Hd as [Hres Hes];
    apply emits_inj in Hes; inversion Hres; subst; done.
Qed.

End PendingDispatch.

Lemma dispatch_without_email_witness :
  let sms := mkReminder "r1" "u1" "Eye drops" "Twice a day" (Some 5000) "sms"
                        "+15550100" pending None None in
  let w := run [Core (Schedule sms 1000 JobCreated)] (startup {[ "r1" := sms ]}) in
  let w' := (dispatch 0 resolves w).2 in
  reminders w' !! "r1" = Some (markFailed "SMS not implemented" sms) ∧
  wire (since w w') = [] ∧
  saves (since w w') = [markFailed "SMS not implemented" sms].
Proof.
  intros sms w.
  apply (dispatch_without_email 0 (mkJob 5000 "r1") resolves w sms);
    try reflexivity. discriminate.
Defined.

Lemma dispatch_unconfigured_witness :
  let r := sample "r1" (Some 5000) pending in
  let w := run [Core (Schedule r 1000 JobCreated)]
               (constructor None None {[ "r1" := r ]}) in
  let w' := (dispatch 0 resolves w).2 in
  reminders w' !! "r1" = Some (markFailed "Transporter not configured" r) ∧
  wire (since w w') = [].
Proof.
  intros r w.
  apply (dispatch_unconfigured 0 (mkJob 5000 "r1") resolves w r); reflexivity.
Defined.

Lemma dispatch_email_outcome_witness :
  let r := sample "r1" (Some 5000) pending in
  let env := mkAnswers 5000 None
               (λ k, if decide (k = 1%nat) then Some refused else None) None in
  let w' := (dispatch 0 env oneScheduled).2 in
  let sent := SendMail "a@b.com" "Reminder: Eye drops" in
  reminders w' !! "r1" = Some (markSent 5000 r) ∧
  wire (since oneScheduled w') = [sent; Sleep 700; sent].
Proof.
  intros r env.
  apply (dispatch_email_outcome 0 (mkJob 5000 "r1") env oneScheduled r);
    reflexivity.
Defined.

(** ** What a schedule call answers *)

(** X9. [scheduleReminder] never throws, also when node-schedule does. It
    answers true exactly when the date is valid and after the clock and
    node-schedule hands out a job; then the job is the entry of the
    reminder and fires at the reminder's date. In every other case it
    answers false, allocates nothing and leaves the reminder without
    entry. *)
Theorem schedule_reports_registration reminder now answer w :
  let out := scheduleReminder reminder now answer w in
  let id := _id reminder in
  (∃ d, dateTime reminder = Some d ∧ (now < d)%Z ∧ answer = JobCreated ∧
        out.1 = Returned true ∧
        scheduledJobs out.2 !! id = Some (nextJob w) ∧
        timers out.2 !! nextJob w = Some (mkJob d id) ∧
        nextJob out.2 = S (nextJob w)) ∨
  ((dateTime reminder = None ∨
    (∃ d, dateTime reminder = Some d ∧ (d ≤ now)%Z) ∨
    answer ≠ JobCreated) ∧
   out.1 = Returned false ∧
   scheduledJobs out.2 !! id = None ∧
   nextJob out.2 = nextJob w).
Proof.
  intros out id. subst out id.
  destruct (accepted reminder now answer) eqn:Hacc.
  - left. destruct (scheduleReminder_accepted _ _ _ w Hacc) as (d & Hd & Hlt & ->).
    exists d. simpl. rewrite !lookup_insert_eq. split_and!; try done.
    unfold accepted in Hacc. rewrite Hd in Hacc. by destruct answer.
  - right. destruct (scheduleReminder_rejected _ _ _ w Hacc) as (report & ->).
    simpl. destruct (cancelExisting_frame (_id reminder) w) as (_ & Hn & _).
    split_and!; try done; [|apply cancelExisting_lookup].
    unfold accepted in Hacc.
    destruct (dateTime reminder) as [d|]; [|by left].
    destruct answer; try (right; right; discriminate).
    right. left. exists d. split; [done|].
    apply bool_decide_eq_false in Hacc. lia.
Qed.

(** ** Reminders do not disturb each other *)





(** ** Recovery when the store does not answer *)

(** X12. When the query of the recovery is rejected, the routine returns
    normally: the rejection is reported on the console, no reminder is
    scheduled, and the table, the pending jobs and the store are as
    before. *)
Theorem restore_query_fails env w e :
  findRejects env = Some e →
  let out := restorePendingReminders env w in
  out.1 = Returned tt ∧
  since w out.2 = [Find (queryClock env); Console (ErrorRestoring (describe e))] ∧
  scheduledJobs out.2 = scheduledJobs w ∧
  timers out.2 = timers w ∧
  nextJob out.2 = nextJob w ∧
  reminders out.2 = reminders w.
Proof.
  intros Hf out. subst out. rewrite restorePendingReminders_eq, Hf. simpl.
  split_and!; try done. apply since_emits.
Qed.

Lemma restore_query_fails_witness :
  let env := mkRestoreAnswers 1000 (Some refused) (λ _, 1001) (λ _, JobCreated) in
  let out := restorePendingReminders env (startup restartStore) in
  out.1 = Returned tt ∧
  since (startup restartStore) out.2 =
    [Find 1000; Console (ErrorRestoring "ECONNREFUSED")] ∧
  scheduledJobs out.2 = scheduledJobs (startup restartStore) ∧
  timers out.2 = timers (startup restartStore) ∧
  nextJob out.2 = nextJob (startup restartStore) ∧
  reminders out.2 = reminders (startup restartStore).
Proof.
  exact (restore_query_fails
           (mkRestoreAnswers 1000 (Some refused) (λ _, 1001) (λ _, JobCreated))
           (startup restartStore) refused eq_refl).
Defined.

(** ** The constructor *)

Lemma removeSpaces_nonempty s :
  removeSpaces s ≠ "" ↔ ∃ c, c ∈ list_ascii_of_string s ∧ isSpace c = false.
Proof.
  induction s as [|c s IH]; simpl.
  - split; [done|]. intros (c & Hc & _). by apply elem_of_nil in Hc.
  - destruct (isSpace c) eqn:Hc.
    + rewrite IH. split.
      * intros (c' & Hin & Hs). exists c'. split; [by right|done].
      * intros (c' & [->|Hin]%elem_of_cons & Hs); [congruence|eauto].
    + split; [|done]. intros _. exists c. split; [left|done].
Qed.

(** X13. For a password of plain text the constructor builds the transporter
    exactly when [EMAIL_USER] is set and not empty and [EMAIL_PASSWORD] is
    set and has a character that is not white space; the table starts empty
    and no job is pending. *)
Theorem constructor_configured user pass store :
  plain (default "" pass) = true →
  let w := constructor user pass store in
  (emailTransporter w = true ↔
   (∃ u, user = Some u ∧ u ≠ "") ∧
   (∃ p c, pass = Some p ∧ c ∈ list_ascii_of_string p ∧ isSpace c = false)) ∧
  scheduledJobs w = ∅ ∧
  timers w = ∅ ∧
  reminders w = store ∧
  effects w = [].
Proof.
  intros _ w. split_and!; try done.
  unfold w, constructor. simpl.
  rewrite negb_true_iff, orb_false_iff, !bool_decide_eq_false.
  rewrite removeSpaces_nonempty. split.
  - intros [Hu (c & Hc & Hs)]. split.
    + destruct user as [u|]; [|done]. by exists u.
    + destruct pass as [p|]; [|by apply elem_of_nil in Hc]. by exists p, c.
  - intros [(u & -> & Hu) (p & c & -> & Hc & Hs)]. split; [done|]. by exists c.
Qed.

(** An app password as the mail provider shows it, in groups of four. *)
Lemma constructor_configured_witness :
  emailTransporter (constructor (Some "clinic@example.com") (Some "abcd efgh ijkl mnop") ∅) = true ∧
  emailTransporter (constructor (Some "clinic@example.com") (Some "  ") ∅) = false.
Proof.
  split.
  - destruct (constructor_configured (Some "clinic@example.com")
                (Some "abcd efgh ijkl mnop") ∅ eq_refl) as [[_ Hbuilt] _].
    apply Hbuilt. split.
    + exists "clinic@example.com". split; [reflexivity|discriminate].
    + exists "abcd efgh ijkl mnop", "a"%char. split_and!; [reflexivity| |reflexivity].
      apply list_elem_of_here.
  - reflexivity.
Defined.

(** * The reminder routes *)

Lemma scheduleReminder_returns reminder now answer w :
  (scheduleReminder reminder now answer w).1 = Returned (accepted reminder now answer).
Proof.
  destruct (accepted reminder now answer) eqn:Hacc.
  - by destruct (scheduleReminder_accepted _ _ _ w Hacc) as (d & _ & _ & ->).
  - by destruct (scheduleReminder_rejected _ _ _ w Hacc) as (report & ->).
Qed.

(** The POST handler in closed form. *)
Lemma createReminder_eq lib user body env w :
  let doc := newReminder user (sanitized body) (parseDate lib (bodyDateTime body))
                         (newId env) in
  let stored := setReminders <[newId env := doc]> (emit (Save doc) w) in
  createReminder lib user body env w =
  if negb (bool_decide (validationErrors lib body = [])) then
    (Returned (mkResponse 400 (ValidationErrors (validationErrors lib body))), w)
  else if notAfter (parseDate lib (bodyDateTime body)) (createClock env) then
    (Returned (mkResponse 400 (ErrorMessage "Reminder date must be in the future")), w)
  else
    match createSaveRejects env, createImportRejects env with
    | Some _, _ =>
        (Returned (mkResponse 500 (ErrorMessage "Failed to create reminder")),
         emit (Save doc) w)
    | None, Some _ =>
        (Returned (mkResponse 500 (ErrorMessage "Failed to create reminder")), stored)
    | None, None =>
        (Returned (mkResponse 201 (Created doc)),
         (scheduleReminder doc (scheduleClock env) (jobAnswer env) stored).2)
    end.
Proof.
  intros doc stored. unfold createReminder, tryCatch.
  destruct (negb (bool_decide (validationErrors lib body = []))); [done|].
  change (bodyDateTime (sanitized body)) with (bodyDateTime body).
  destruct (notAfter (parseDate lib (bodyDateTime body)) (createClock env)); [done|].
  fold doc. unfold save, bind, exec, await, ret. simpl.
  destruct (createSaveRejects env); [done|].
  fold stored.
  destruct (createImportRejects env); [done|].
  pose proof (scheduleReminder_returns doc (scheduleClock env) (jobAnswer env) stored)
    as Hret.
  destruct (scheduleReminder doc (scheduleClock env) (jobAnswer env) stored)
    as [out w']. simpl in Hret. by subst out.
Qed.

(** The DELETE handler in closed form. *)
Lemma deleteReminder_eq cast user id env w :
  let gone := ErrorMessage "Failed to delete reminder" in
  deleteReminder cast user id env w =
  match cast id with
  | None => (Returned (mkResponse 500 gone), w)
  | Some key =>
      match findOneRejects env with
      | Some _ => (Returned (mkResponse 500 gone), w)
      | None =>
          match reminders w !! key with
          | Some r =>
              if decide (userId r = user) then
                match deleteImportRejects env, deleteOneRejects env with
                | Some _, _ => (Returned (mkResponse 500 gone), w)
                | None, Some _ =>
                    (Returned (mkResponse 500 gone), (cancelScheduledReminder id w).2)
                | None, None =>
                    (Returned (mkResponse 200 (Message "Reminder deleted successfully")),
                     setReminders (delete key) (cancelScheduledReminder id w).2)
                end
              else (Returned (mkResponse 404 (ErrorMessage "Reminder not found")), w)
          | None => (Returned (mkResponse 404 (ErrorMessage "Reminder not found")), w)
          end
      end
  end.
Proof.
  intros gone.
  unfold deleteReminder, tryCatch, findOne, deleteOne, castId, bind, exec, await, ret.
  destruct (cast id) as [key|]; [|done].
  destruct (findOneRejects env); [done|].
  destruct (reminders w !! key) as [r|]; [|done].
  destruct (decide (userId r = user)); [|done].
  destruct (deleteImportRejects env); [done|].
  unfold cancelScheduledReminder.
  destruct (scheduledJobs w !! id); destruct (deleteOneRejects env); done.
Qed.

(** X15. A POST whose body fails a validation chain, or whose date is at or
    before the clock, is answered with status 400 and changes nothing:
    nothing is saved and nothing is scheduled. *)
Theorem create_bad_request lib user body env w :
  validationErrors lib body ≠ [] ∨
  notAfter (parseDate lib (bodyDateTime body)) (createClock env) = true →
  let out := createReminder lib user body env w in
  (∃ p, out.1 = Returned (mkResponse 400 p)) ∧ out.2 = w.
Proof.
  intros Hbad out. subst out. rewrite createReminder_eq.
  destruct (decide (validationErrors lib body = [])) as [Hnil|Hne].
  - rewrite bool_decide_eq_true_2 by done. simpl.
    destruct Hbad as [? | ->]; [done|]. eauto.
  - rewrite bool_decide_eq_false_2 by done. simpl. eauto.
Qed.

Lemma create_bad_request_witness :
  let past := mkCreateAnswers 9000 "n1" None None 9001 JobCreated in
  let out := createReminder sampleLibrary "u1" sampleBody past oneScheduled in
  (∃ p, out.1 = Returned (mkResponse 400 p)) ∧ out.2 = oneScheduled.
Proof.
  apply (create_bad_request sampleLibrary "u1" sampleBody
           (mkCreateAnswers 9000 "n1" None None 9001 JobCreated) oneScheduled).
  right. reflexivity.
Defined.

(** X16. A POST with a body of plain text never throws and answers 400, 201 or
    500. It answers 201 exactly when the body passes the validation, the
    date is not at or before the clock, and the save and the import of the
    service resolve; the store then holds, under the new id, a pending
    reminder of the authenticated user with the trimmed title, note and
    contact of the body. The answer does not depend on what
    [scheduleReminder] returns. *)
Theorem create_answer lib user body env w :
  plainBody body = true →
  let out := createReminder lib user body env w in
  let doc := newReminder user (sanitized body) (parseDate lib (bodyDateTime body))
                         (newId env) in
  ∃ resp,
    out.1 = Returned resp ∧
    (statusCode resp = 400 ∨ statusCode resp = 201 ∨ statusCode resp = 500)%nat ∧
    (statusCode resp = 201%nat ↔
     validationErrors lib body = [] ∧
     notAfter (parseDate lib (bodyDateTime body)) (createClock env) = false ∧
     createSaveRejects env = None ∧
     createImportRejects env = None) ∧
    (statusCode resp = 201%nat →
     payload resp = Created doc ∧
     reminders out.2 = <[newId env := doc]> (reminders w) ∧
     status doc = pending ∧
     userId doc = user ∧
     title doc = trim (bodyTitle body) ∧
     note doc = trim (bodyNote body) ∧
     contactInfo doc = trim (bodyContactInfo body)).
Proof.
  intros _ out doc. subst out. rewrite createReminder_eq. fold doc.
  destruct (decide (validationErrors lib body = [])) as [Hnil|Hne].
  2: { rewrite bool_decide_eq_false_2 by done. simpl. eexists. split; [done|].
       simpl. split_and!; [by left| |done]. split; [done|]. by intros [? _]. }
  rewrite bool_decide_eq_true_2 by done. simpl.
  destruct (notAfter _ _) eqn:Hna.
  { eexists. split; [done|]. simpl. split_and!; [by left| |done].
    split; [done|]. by intros (_ & ? & _). }
  destruct (createSaveRejects env) as [e|] eqn:Hs.
  { eexists. split; [done|]. simpl. split_and!; [by right; right| |done].
    split; [done|]. by intros (_ & _ & ? & _). }
  destruct (createImportRejects env) as [e|] eqn:Hi.
  { eexists. split; [done|]. simpl. split_and!; [by right; right| |done].
    split; [done|]. by intros (_ & _ & _ & ?). }
  eexists. split; [done|]. simpl. split_and!; [by right; left|done|].
  intros _. split_and!; try done.
  by destruct (scheduleReminder_frame doc (scheduleClock env) (jobAnswer env)
                 (setReminders <[newId env := doc]> (emit (Save doc) w)))
    as (_ & -> & _).
Qed.

(** The sample body, with its title padded by spaces, is answered 201 and
    stored trimmed. *)
Lemma create_answer_witness :
  let out := createReminder sampleLibrary "u1" sampleBody sampleCreate oneScheduled in
  out.1 = Returned (mkResponse 201
            (Created (newReminder "u1" (sanitized sampleBody) (Some 9000) "n1"))) ∧
  (title <$> reminders out.2 !! "n1") = Some "Eye drops".
Proof.
  intros out.
  destruct (create_answer sampleLibrary "u1" sampleBody sampleCreate oneScheduled eq_refl)
    as (resp & Hresp & _ & [_ H201] & Hstored).
  assert (statusCode resp = 201%nat) as Hcode by (apply H201; split_and!; reflexivity).
  destruct (Hstored Hcode) as (Hpayload & Hstore & _).
  fold out in Hresp, Hstore. split.
  - rewrite Hresp. destruct resp as [code load]. simpl in Hcode, Hpayload.
    by rewrite Hcode, Hpayload.
  - rewrite Hstore, lookup_insert_eq. reflexivity.
Defined.


Lemma Consistent_createReminder lib user body env w :
  Consistent w → Consistent (createReminder lib user body env w).2.
Proof.
  intros Hc. rewrite createReminder_eq.
  destruct (negb _); [done|]. destruct (notAfter _ _); [done|].
  destruct (createSaveRejects env); [by apply (Consistent_same w)|].
  destruct (createImportRejects env); [by apply (Consistent_same w)|].
  simpl. apply Consistent_scheduleReminder. by apply (Consistent_same w).
Qed.

Lemma Consistent_deleteReminder cast user id env w :
  Consistent w → Consistent (deleteReminder cast user id env w).2.
Proof.
  intros Hc. rewrite deleteReminder_eq.
  pose proof (Consistent_cancelScheduledReminder id w Hc) as Hc'.
  destruct (cast id) as [key|]; [|done].
  destruct (findOneRejects env); [done|].
  destruct (reminders w !! key) as [r|]; [|done].
  destruct (decide (userId r = user)); [|done].
  destruct (deleteImportRejects env); [done|].
  destruct (deleteOneRejects env); [done|].
  simpl. by apply (Consistent_same (cancelScheduledReminder id w).2).
Qed.



(** X18. Both handlers keep the table and the pending jobs in agreement, and
    keep every document of the store under its own [_id]. *)
Theorem routes_keep_invariants lib user body cenv cast id denv w :
  Consistent w →
  wellKeyed (reminders w) →
  (Consistent (createReminder lib user body cenv w).2 ∧
   wellKeyed (reminders (createReminder lib user body cenv w).2)) ∧
  (Consistent (deleteReminder cast user id denv w).2 ∧
   wellKeyed (reminders (deleteReminder cast user id denv w).2)).
Proof.
  intros Hc Hk. split_and!.
  - by apply Consistent_createReminder.
  - rewrite createReminder_eq.
    destruct (negb _); [done|]. destruct (notAfter _ _); [done|].
    destruct (createSaveRejects cenv); [done|].
    assert (wellKeyed (<[newId cenv :=
              newReminder user (sanitized body)
                (parseDate lib (bodyDateTime body)) (newId cenv)]> (reminders w)))
      as Hk' by by apply map_Forall_insert_2.
    destruct (createImportRejects cenv); [done|]. simpl.
    by destruct (scheduleReminder_frame
                   (newReminder user (sanitized body)
                      (parseDate lib (bodyDateTime body)) (newId cenv))
                   (scheduleClock cenv) (jobAnswer cenv)
                   (setReminders <[newId cenv :=
                      newReminder user (sanitized body)
                        (parseDate lib (bodyDateTime body)) (newId cenv)]>
                      (emit (Save (newReminder user (sanitized body)
                        (parseDate lib (bodyDateTime body)) (newId cenv))) w)))
      as (_ & -> & _).
  - by apply Consistent_deleteReminder.
  - rewrite deleteReminder_eq.
    assert (reminders (cancelScheduledReminder id w).2 = reminders w) as Hr.
    { unfold cancelScheduledReminder. by destruct (scheduledJobs w !! id). }
    destruct (cast id) as [key|]; [|done].
    destruct (findOneRejects denv); [done|].
    destruct (reminders w !! key) as [r|]; [|done].
    destruct (decide (userId r = user)); [|done].
    destruct (deleteImportRejects denv); [done|].
    destruct (deleteOneRejects denv); simpl; rewrite Hr; [done|].
    by apply map_Forall_delete.
Qed.

Lemma routes_keep_invariants_witness :
  (Consistent (createReminder sampleLibrary "u1" sampleBody sampleCreate oneScheduled).2 ∧
   wellKeyed (reminders (createReminder sampleLibrary "u1" sampleBody sampleCreate
                           oneScheduled).2)) ∧
  (Consistent (deleteReminder sampleCast "u1" "R1" sampleDelete oneScheduled).2 ∧
   wellKeyed (reminders (deleteReminder sampleCast "u1" "R1" sampleDelete oneScheduled).2)).
Proof.
  apply (routes_keep_invariants sampleLibrary "u1" sampleBody sampleCreate sampleCast "R1"
           sampleDelete oneScheduled).
  - apply Consistent_run, Consistent_constructor.
  - unfold wellKeyed. compute_done.
Defined.

(** X19. A DELETE whose id denotes a reminder that is not stored, or one that
    is stored for another user, is answered 404 and changes nothing: the
    record stays and its timer keeps running. The store is asked for the id
    the request string denotes, however the request spells it. *)
Theorem delete_not_found cast user id key env w :
  cast id = Some key →
  findOneRejects env = None →
  reminders w !! key = None ∨ (∃ r, reminders w !! key = Some r ∧ userId r ≠ user) →
  deleteReminder cast user id env w =
  (Returned (mkResponse 404 (ErrorMessage "Reminder not found")), w).
Proof.
  intros Hk Hf Hno. rewrite deleteReminder_eq, Hk, Hf.
  destruct Hno as [-> | (r & -> & Hne)]; [done|].
  by destruct (decide (userId r = user)).
Qed.

Lemma delete_not_found_witness :
  deleteReminder sampleCast "u2" "R1" sampleDelete oneScheduled =
  (Returned (mkResponse 404 (ErrorMessage "Reminder not found")), oneScheduled).
Proof.
  apply (delete_not_found sampleCast "u2" "R1" "r1" sampleDelete oneScheduled);
    [reflexivity|reflexivity|].
  right. exists (sample "r1" (Some 5000) pending). split; [reflexivity|discriminate].
Defined.





(** * Start and shutdown *)

Lemma startServer_eq env w :
  startServer env w =
  match connectRejects env with
  | Some _ => (Returned (Exited 1), w)
  | None => (Returned Listening, (restorePendingReminders (recovery env) w).2)
  end.
Proof.
  unfold startServer, tryCatch, bind, await, ret.
  destruct (connectRejects env); [done|].
  rewrite restorePendingReminders_eq. done.
Qed.

Lemma gracefulShutdown_eq w :
  gracefulShutdown w = (Returned (Exited 0), (cancelAllScheduled w).2).
Proof. reflexivity. Qed.


(** X23. The shutdown exits with code 0 and leaves the table empty. It cancels
    the jobs that the table holds and no other: a pending job without an
    entry is still pending afterwards. The store and the effects are as
    before. After a start that nothing followed no job is left pending, and
    no dispatch happens any more. *)
Theorem shutdown_cancels_table_jobs w :
  let out := gracefulShutdown w in
  out.1 = Returned (Exited 0) ∧
  scheduledJobs out.2 = ∅ ∧
  (∀ id j, scheduledJobs w !! id = Some j → timers out.2 !! j = None) ∧
  (∀ j, (∀ id, scheduledJobs w !! id ≠ Some j) → timers out.2 !! j = timers w !! j) ∧
  reminders out.2 = reminders w ∧
  effects out.2 = effects w ∧
  (∀ user pass store env,
     w = (startServer env (constructor user pass store)).2 →
     timers out.2 = ∅ ∧
     ∀ j answers, dispatch j answers out.2 = (Returned tt, out.2)).
Proof.
  intros out. subst out. rewrite gracefulShutdown_eq. cbn [fst snd].
  unfold cancelAllScheduled. cbn [snd].
  destruct (cancelAll_loop (map_to_list (scheduledJobs w)) w)
    as (_ & _ & _ & Hr & He & Hj).
  split_and!; try done.
  - intros id j Hid. simpl. rewrite Hj, decide_True; [done|].
    apply list_elem_of_fmap. exists (id, j). split; [done|].
    by apply elem_of_map_to_list.
  - intros j Hno. simpl. rewrite Hj, decide_False; [done|].
    intros ([id j'] & Heq & Hin)%list_elem_of_fmap. simpl in Heq. subst j'.
    apply elem_of_map_to_list in Hin. by apply (Hno id).
  - intros user pass store env ->.
    assert (Consistent (startServer env (constructor user pass store)).2) as Hc.
    { rewrite startServer_eq.
      destruct (connectRejects env); [apply Consistent_constructor|].
      apply restorePendingReminders_frame, Consistent_constructor. }
    destruct (cancelAllScheduled_empty _ Hc) as (_ & Hempty & _).
    unfold cancelAllScheduled in Hempty. cbn [snd] in Hempty.
    split; [exact Hempty|].
    intros j answers. apply dispatch_not_pending.
    change (timers (setScheduledJobs (λ _, ∅)
              (foldr (λ entry, cancelJob entry.2)
                 (startServer env (constructor user pass store)).2
                 (map_to_list (scheduledJobs
                    (startServer env (constructor user pass store)).2)))) !! j = None).
    rewrite Hempty. apply lookup_empty.
Qed.

(** * From the schedule call to the mail *)



(** * Deleting a user *)

Lemma deleteUser_eq cast admin user env w :
  deleteUser cast admin user env w =
  if decide (user = admin) then
    (Returned (mkResponse 400 (ErrorMessage "Cannot delete your own account")), w)
  else
    match cast user with
    | None => (Returned (mkResponse 500 (ErrorMessage "Server error")), w)
    | Some key =>
        match findUserRejects env with
        | Some _ => (Returned (mkResponse 500 (ErrorMessage "Server error")), w)
        | None =>
            if negb (userFound env) then
              (Returned (mkResponse 404 (ErrorMessage "User not found")), w)
            else
              match deleteReportsRejects env, deleteRemindersRejects env with
              | None, None =>
                  (Returned (mkResponse 200 (Message "User deleted successfully")),
                   setReminders (filter (λ entry, userId entry.2 ≠ key)) w)
              | _, _ => (Returned (mkResponse 500 (ErrorMessage "Server error")), w)
              end
        end
    end.
Proof.
  unfold deleteUser, tryCatch, deleteMany, castId, bind, exec, await, ret.
  destruct (decide (user = admin)); [done|].
  destruct (cast user) as [key|]; [|done].
  destruct (findUserRejects env); [done|].
  destruct (negb (userFound env)); [done|].
  destruct (deleteReportsRejects env); [done|].
  by destruct (deleteRemindersRejects env).
Qed.

(** X24. Deleting a user never throws. The request is refused with 400 exactly
    when it spells the id as the id of the caller prints; unless the answer
    is 200 the reminders, the table and the pending jobs are as before (the
    user and report collections are the outside world). With the answer 200
    the request string denotes a user id; the store then holds no reminder
    of that user and holds the reminders of the other users as before, while
    the table and the pending jobs are untouched: the jobs of the deleted
    reminders are still pending. When such a job fires, its dispatch sends
    nothing, saves nothing and removes its entry. An administrator who
    spells their own id otherwise than it prints (the hex digits in upper
    case) passes the test for the own account, and with the answer 200 their
    own reminders are deleted. *)
Theorem delete_user_cascade cast admin user env w :
  let out := deleteUser cast admin user env w in
  ∃ resp,
    out.1 = Returned resp ∧
    (statusCode resp = 400%nat ↔ user = admin) ∧
    (statusCode resp ≠ 200%nat → out.2 = w) ∧
    (statusCode resp = 200%nat →
     ∃ key,
       cast user = Some key ∧
       user ≠ admin ∧
       (∀ id r, reminders out.2 !! id = Some r ↔
                reminders w !! id = Some r ∧ userId r ≠ key) ∧
       scheduledJobs out.2 = scheduledJobs w ∧
       timers out.2 = timers w ∧
       ∀ j job r answers,
         timers w !! j = Some job →
         reminders w !! jobReminder job = Some r →
         userId r = key →
         let w2 := (dispatch j answers out.2).2 in
         wire (since out.2 w2) = [] ∧
         saves (since out.2 w2) = [] ∧
         reminders w2 = reminders out.2 ∧
         scheduledJobs w2 !! jobReminder job = None).
Proof.
  intros out. subst out. rewrite deleteUser_eq.
  destruct (decide (user = admin)) as [Heq|Hne].
  { eexists. split; [done|]. simpl. split_and!; done. }
  destruct (cast user) as [key|].
  2: { eexists. split; [done|]. simpl. split_and!; done. }
  destruct (findUserRejects env).
  { eexists. split; [done|]. simpl. split_and!; done. }
  destruct (negb (userFound env)).
  { eexists. split; [done|]. simpl. split_and!; done. }
  destruct (deleteReportsRejects env).
  { eexists. split; [done|]. simpl. split_and!; done. }
  destruct (deleteRemindersRejects env).
  { eexists. split; [done|]. simpl. split_and!; done. }
  eexists. split; [done|]. simpl. split_and!; try done.
  intros _. exists key.
  set (w1 := setReminders (filter (λ entry, userId entry.2 ≠ key)) w).
  split_and!; try done.
  - intros id r. simpl. apply (map_lookup_filter_Some (λ entry, userId entry.2 ≠ key)).
  - intros j job r answers Hj Hr Hu.
    assert (reminders w1 !! jobReminder job = None) as Hgone.
    { simpl. apply map_lookup_filter_None. right. intros r' Hr'. simpl.
      rewrite Hr in Hr'. inversion Hr'; subst r'. by intros ?. }
    assert (timers w1 !! j = Some job) as Hj1 by done.
    rewrite (dispatch_eq _ _ _ _ Hj1). simpl.
    unfold afterBody.
    assert (∀ es, since w1 (setScheduledJobs (delete (jobReminder job))
                              (emits es (setTimers (delete j) w1))) = es) as Hsince.
    { intros es. apply (since_emits es w1). }
    change (reminders (setTimers (delete j) w1)) with (reminders w1).
    rewrite Hgone.
    destruct (findByIdRejects answers); rewrite Hsince; simpl;
      rewrite lookup_delete_eq; done.
Qed.

(** The administrator u1 asks for the deletion of U1: the answer is 200 and
    the reminder r1 of u1 is gone, while its job stays pending. *)
Lemma delete_user_cascade_witness :
  let env := mkUserDeleteAnswers None true None None in
  let out := deleteUser sampleCast "u1" "U1" env oneScheduled in
  let w2 := (dispatch 0 resolves out.2).2 in
  out.1 = Returned (mkResponse 200 (Message "User deleted successfully")) ∧
  sampleCast "U1" = Some "u1" ∧
  reminders out.2 !! "r1" = None ∧
  timers out.2 !! 0%nat = Some (mkJob 5000 "r1") ∧
  wire (since out.2 w2) = [] ∧
  saves (since out.2 w2) = [] ∧
  scheduledJobs w2 !! "r1" = None.
Proof.
  intros env out.
  destruct (delete_user_cascade sampleCast "u1" "U1" env oneScheduled)
    as (resp & Hresp & _ & _ & H200).
  assert (resp = mkResponse 200 (Message "User deleted successfully")) as ->.
  { fold out in Hresp. vm_compute in Hresp. by inversion Hresp. }
  destruct (H200 eq_refl) as (key & Hkey & _ & _ & _ & _ & Hfire).
  assert (key = "u1") as ->.
  { vm_compute in Hkey. by inversion Hkey. }
  destruct (Hfire 0%nat (mkJob 5000 "r1") (sample "r1" (Some 5000) pending) resolves)
    as (Hwire & Hsaves & _ & Hentry); try reflexivity.
  split_and!; try assumption; reflexivity.
Defined.

(** * The authentication middleware *)

Lemma substring_all s : String.substring 0 (String.length s) s = s.
Proof. induction s as [|c s IH]; simpl; [done|]. by rewrite IH. Qed.

Lemma substring_append s t :
  String.substring (String.length s) (String.length t) (s ++ t)%string = t.
Proof. induction s as [|c s IH]; simpl; [apply substring_all|apply IH]. Qed.

Lemma prefix_append s t : String.prefix s (s ++ t)%string = true.
Proof.
  induction s as [|c s IH]; simpl; [by destruct t|].
  destruct (Ascii.ascii_dec c c); [done|done].
Qed.

Lemma length_append s t :
  String.length (s ++ t)%string = (String.length s + String.length t)%nat.
Proof. induction s as [|c s IH]; simpl; [done|]. by rewrite IH. Qed.

Lemma removeFirst_eq pattern s :
  removeFirst pattern s =
  if String.prefix pattern s then
    String.substring (String.length pattern) (String.length s - String.length pattern) s
  else
    match s with
    | EmptyString => EmptyString
    | String c s' => String c (removeFirst pattern s')
    end.
Proof. by destruct s. Qed.

(** Removing a pattern from a string that starts with it leaves the rest. *)
Lemma removeFirst_append pattern t : removeFirst pattern (pattern ++ t)%string = t.
Proof.
  rewrite removeFirst_eq, prefix_append, length_append.
  replace (String.length pattern + String.length t - String.length pattern)%nat
    with (String.length t) by lia.
  apply substring_append.
Qed.

(** The token is what follows "Bearer " in the header. *)
Lemma tokenOf_bearer token : tokenOf (Some ("Bearer " ++ token)%string) = Some token.
Proof. exact (f_equal Some (removeFirst_append "Bearer " token)). Qed.

(** Whom a middleware lets through. *)
Lemma authenticate_next refusal allowed noToken denied invalid expired env header user :
  authenticate refusal allowed noToken denied invalid expired env header = Next user ↔
  (∃ token decoded,
     tokenOf header = Some token ∧ token ≠ "" ∧
     verify env token = inl decoded ∧
     userIdOf decoded ≠ "" ∧
     findUser env (userIdOf decoded) = inl (Some user)) ∧
  allowed (role user) = true.
Proof.
  unfold authenticate.
  destruct (tokenOf header) as [token|]; [|split; [done|by intros [(? & ? & ? & _) _]]].
  destruct (decide (token = "")) as [->|Hne].
  { rewrite bool_decide_eq_true_2 by done.
    split; [done|]. by intros [(? & ? & [= <-] & ? & _) _]. }
  rewrite bool_decide_eq_false_2 by done.
  destruct (verify env token) as [decoded|name] eqn:Hv.
  2: { split.
       - by repeat case_bool_decide.
       - intros [(t & d & [= <-] & _ & Hv' & _) _]. congruence. }
  destruct (decide (userIdOf decoded = "")) as [He|Hid].
  { rewrite bool_decide_eq_true_2 by done. split; [done|].
    intros [(t & d & [= <-] & _ & Hv' & Hd & _) _]. congruence. }
  rewrite bool_decide_eq_false_2 by done.
  destruct (findUser env (userIdOf decoded)) as [[u|]|name] eqn:Hf.
  - destruct (allowed (role u)) eqn:Ha.
    + split.
      * intros [= <-]. split; [|done]. by exists token, decoded.
      * intros [(t & d & [= <-] & _ & Hv' & _ & Hf') _].
        assert (d = decoded) as -> by congruence. congruence.
    + split; [done|].
      intros [(t & d & [= <-] & _ & Hv' & _ & Hf') Ha'].
      assert (d = decoded) as -> by congruence.
      assert (u = user) as -> by congruence. congruence.
  - split; [done|].
    intros [(t & d & [= <-] & _ & Hv' & _ & Hf') _].
    assert (d = decoded) as -> by congruence. congruence.
  - split.
    + by repeat case_bool_decide.
    + intros [(t & d & [= <-] & _ & Hv' & _ & Hf') _].
      assert (d = decoded) as -> by congruence. congruence.
Qed.

(** How a middleware refuses: with its own status, or with 500 when
    [jwt.verify] or [User.findById] throws something that is not one of the
    two token errors. *)
Lemma authenticate_answer refusal allowed noToken denied invalid expired env header
    code msg :
  authenticate refusal allowed noToken denied invalid expired env header =
    Answer code msg →
  code = refusal ∨
  (code = 500%nat ∧
   ∃ name, name ≠ "JsonWebTokenError" ∧ name ≠ "TokenExpiredError" ∧
           ((∃ token, verify env token = inr name) ∨
            (∃ id, findUser env id = inr name))).
Proof.
  unfold authenticate.
  destruct (tokenOf header) as [token|]; [|intros [= <- _]; by left].
  case_bool_decide; [intros [= <- _]; by left|].
  destruct (verify env token) as [decoded|name] eqn:Hv.
  2: { repeat case_bool_decide; intros [= <- _]; try by left.
       right. split; [done|]. exists name. split_and!; try done. left. eauto. }
  case_bool_decide; [intros [= <- _]; by left|].
  destruct (findUser env (userIdOf decoded)) as [[u|]|name] eqn:Hf.
  - destruct (allowed (role u)); [done|]. intros [= <- _]; by left.
  - intros [= <- _]; by left.
  - repeat case_bool_decide; intros [= <- _]; try by left.
    right. split; [done|]. exists name. split_and!; try done. right. eauto.
Qed.

(** X25. [auth] lets a request through exactly when its header carries a
    non-empty token that verifies, the payload names a user id in one of its
    four fields, and that user exists; the user attached is that one. A
    header made of "Bearer " and a token carries that token. Every refusal
    of [auth] has status 401, except 500 when [jwt.verify] or
    [User.findById] throws something other than the two token errors. *)
Theorem auth_lets_through env :
  (∀ header user,
     auth env header = Next user ↔
     ∃ token decoded,
       tokenOf header = Some token ∧ token ≠ "" ∧
       verify env token = inl decoded ∧
       userIdOf decoded ≠ "" ∧
       findUser env (userIdOf decoded) = inl (Some user)) ∧
  (∀ token, tokenOf (Some ("Bearer " ++ token)%string) = Some token) ∧
  (∀ header code msg,
     auth env header = Answer code msg →
     code = 401%nat ∨
     (code = 500%nat ∧
      ∃ name, name ≠ "JsonWebTokenError" ∧ name ≠ "TokenExpiredError" ∧
              ((∃ token, verify env token = inr name) ∨
               (∃ id, findUser env id = inr name)))).
Proof.
  split_and!.
  - intros header user. unfold auth. rewrite authenticate_next. split.
    + by intros [? _].
    + by intros ?.
  - apply tokenOf_bearer.
  - intros header code msg. apply authenticate_answer.
Qed.

(** X26. The three gates are nested: [adminAuth] lets through exactly the
    requests [auth] lets through whose user has the role admin, and
    [doctorAuth] those whose user has the role doctor or admin, with the
    same user attached; so whoever passes [adminAuth] passes [doctorAuth].
    [isAdmin] after [auth] lets through exactly what [adminAuth] does. The
    refusals of [adminAuth] and [doctorAuth] have status 403 or 500. *)
Theorem auth_roles env header :
  (∀ user,
     adminAuth env header = Next user ↔
     auth env header = Next user ∧ role user = "admin") ∧
  (∀ user,
     doctorAuth env header = Next user ↔
     auth env header = Next user ∧ (role user = "doctor" ∨ role user = "admin")) ∧
  (∀ user, adminAuth env header = Next user → doctorAuth env header = Next user) ∧
  (∀ user,
     adminAuth env header = Next user ↔
     auth env header = Next user ∧ isAdmin user = Next user) ∧
  (∀ code msg,
     adminAuth env header = Answer code msg ∨ doctorAuth env header = Answer code msg →
     code = 403%nat ∨ code = 500%nat).
Proof.
  assert (∀ user,
     adminAuth env header = Next user ↔
     auth env header = Next user ∧ role user = "admin") as Hadmin.
  { intros user. unfold adminAuth, auth. rewrite !authenticate_next.
    rewrite bool_decide_eq_true. tauto. }
  assert (∀ user,
     doctorAuth env header = Next user ↔
     auth env header = Next user ∧ (role user = "doctor" ∨ role user = "admin"))
    as Hdoctor.
  { intros user. unfold doctorAuth, auth. rewrite !authenticate_next.
    rewrite orb_true_iff, !bool_decide_eq_true. tauto. }
  split_and!; try done.
  - intros user [Ha Hr]%Hadmin. apply Hdoctor. auto.
  - intros user. rewrite Hadmin. unfold isAdmin.
    split; intros [Ha Hr]; (split; [done|]).
    + by rewrite bool_decide_eq_true_2.
    + by case_bool_decide.
  - intros code msg [H|H]; apply authenticate_answer in H as [->|[-> _]]; auto.
Qed.

(** * Only a dispatch sends mail *)

Lemma wire_app es es' : wire (es ++ es') = wire es ++ wire es'.
Proof.
  induction es as [|e es IH]; [done|].
  destruct e; simpl; by rewrite ?IH.
Qed.

Lemma saves_app es es' : saves (es ++ es') = saves es ++ saves es'.
Proof.
  induction es as [|e es IH]; [done|].
  destruct e; simpl; by rewrite ?IH.
Qed.

Lemma quietly_refl w : quietly w w.
Proof. exists []. by rewrite app_nil_r. Qed.

Lemma quietly_trans w1 w2 w3 : quietly w1 w2 → quietly w2 w3 → quietly w1 w3.
Proof.
  intros (es & He & Hw & Hs) (es' & He' & Hw' & Hs').
  exists (es ++ es'). rewrite He', He, app_assoc, wire_app, saves_app, Hw, Hw', Hs, Hs'.
  done.
Qed.

Lemma quietly_same_effects w w' : effects w' = effects w → quietly w w'.
Proof. intros He. exists []. by rewrite app_nil_r. Qed.

Lemma quietly_scheduleReminder reminder now answer w :
  quietly w (scheduleReminder reminder now answer w).2.
Proof.
  destruct (cancelExisting_frame (_id reminder) w) as (_ & _ & _ & He & _).
  destruct (accepted reminder now answer) eqn:Hacc.
  - destruct (scheduleReminder_accepted _ _ _ w Hacc) as (d & _ & _ & ->).
    by apply quietly_same_effects.
  - destruct (scheduleReminder_rejected _ _ _ w Hacc) as (report & ->).
    exists [Console report]. simpl. by rewrite He.
Qed.

Lemma quietly_forOf env (l : list Reminder) w :
  quietly w (forOf l (restoreOne env) w).2.
Proof.
  revert w. induction l as [|r l IH]; intros w; [apply quietly_refl|].
  rewrite forOf_restoreOne_cons.
  eapply quietly_trans; [apply quietly_scheduleReminder|apply IH].
Qed.

(** X27. Scheduling, cancelling, cancelling everything and the recovery send
    no mail, sleep no time and save no document, whatever the outside world
    answers; the two reminder routes send no mail either. Mail is sent by
    dispatches only. *)
Theorem only_dispatch_sends :
  (∀ op w,
     (∀ j env, op ≠ Dispatch j env) →
     wire (since w (step op w)) = [] ∧ saves (since w (step op w)) = []) ∧
  (∀ lib user body env w,
     wire (since w (createReminder lib user body env w).2) = []) ∧
  (∀ cast user id env w,
     wire (since w (deleteReminder cast user id env w).2) = [] ∧
     saves (since w (deleteReminder cast user id env w).2) = []).
Proof.
  assert (∀ w w', quietly w w' →
            wire (since w w') = [] ∧ saves (since w w') = []) as Hq.
  { intros w w' (es & He & Hw & Hs). unfold since. rewrite He.
    by rewrite drop_app_length. }
  split_and!.
  - intros op w Hop. apply Hq. destruct op; simpl.
    + apply quietly_scheduleReminder.
    + apply quietly_same_effects. unfold cancelScheduledReminder.
      by destruct (scheduledJobs w !! reminderId).
    + apply quietly_same_effects. unfold cancelAllScheduled. simpl.
      apply cancelAll_loop.
    + by destruct (Hop j env).
    + rewrite restorePendingReminders_eq. simpl.
      destruct (findRejects env) as [e|].
      * by eexists.
      * eapply quietly_trans; [|apply quietly_forOf]. by eexists.
  - intros lib user body env w. rewrite createReminder_eq.
    destruct (negb _); [by rewrite since_refl|].
    destruct (notAfter _ _); [by rewrite since_refl|].
    set (doc := newReminder _ _ _ _).
    destruct (createSaveRejects env).
    { simpl. rewrite emit_emits, since_emits. done. }
    destruct (createImportRejects env).
    { unfold since. simpl. by rewrite drop_app_length. }
    simpl.
    destruct (quietly_scheduleReminder doc (scheduleClock env) (jobAnswer env)
                (setReminders <[newId env := doc]> (emit (Save doc) w)))
      as (es & He & Hw & _).
    unfold since. rewrite He. simpl. rewrite <- app_assoc, drop_app_length.
    simpl. done.
  - intros cast user id env w. apply Hq. apply quietly_same_effects.
    rewrite deleteReminder_eq.
    assert (effects (cancelScheduledReminder id w).2 = effects w) as He.
    { unfold cancelScheduledReminder. by destruct (scheduledJobs w !! id). }
    destruct (cast id) as [key|]; [|done].
    destruct (findOneRejects env); [done|].
    destruct (reminders w !! key) as [r|]; [|done].
    destruct (decide (userId r = user)); [|done].
    destruct (deleteImportRejects env); [done|].
    by destruct (deleteOneRejects env).
Qed.
